(** * DeskSetups Shop API: a shallow embedding of [main.py] and [schemas.py]

    The service is a thin layer between HTTP and a document store.  The
    embedding follows the source file by file:

    - [Py]      : the Python values the program handles (dict documents,
                  [ObjectId], [datetime]) and the few built-ins it calls;
    - [Http]    : exceptions, and the reply the framework makes of them;
    - [schemas] : the pydantic models of [schemas.py];
    - [Mongo]   : the document store seen through the driver calls the
                  program makes ([count_documents], [insert_many], [find],
                  [sort], [distinct]);
    - [main]    : the models, the helpers and the request handlers of
                  [main.py].

    A Python [str] is a Rocq [string], one [ascii] for one character.
    Letter case is embedded for ASCII text only: where the program folds
    case ([str.lower], a regular expression with option [i]) on text that
    has another character, the embedding gives no answer ([None]) rather
    than a wrong one.  A Python [float] is a
    binary64 [float], an [int] is a [Z].  A [dict] used as a document is a
    [gmap] from field names to values; a [dict] literal with fixed keys is
    a record.

    Left out: [GET /schema], which reads a file. *)

From Stdlib Require Import ZArith NArith Floats.PrimFloat Ascii.
From stdpp Require Import gmap strings list fin_maps sorting.

Set Warnings "-register-all".

(* ===================================================================== *)
(** ** Python values and built-ins                                        *)
(* ===================================================================== *)

Module Py.

(** [bson.ObjectId]: twelve bytes, kept as the number they spell. *)
Record ObjectId := mkObjectId { oid_value : N }.

(** [datetime.datetime]: the civil fields and, for an aware value, the UTC
    offset of its [tzinfo] in minutes. *)
Record datetime := mkdatetime {
  year : Z; month : Z; day : Z;
  hour : Z; minute : Z; second : Z; microsecond : Z;
  tzinfo : option Z
}.

(** [datetime.date]. *)
Record date := mkdate { d_year : Z; d_month : Z; d_day : Z }.

(** What a field of a document can hold. *)
Inductive Value :=
| VNone
| VBool (b : bool)
| VInt (z : Z)
| VFloat (f : float)
| VStr (s : string)
| VObjectId (o : ObjectId)
| VDatetime (t : datetime)
| VDate (d : date)
| VList (l : list Value)
| VDict (d : gmap string Value).

(** A document is a [dict] from field names to values. *)
Abbreviation Doc := (gmap string Value).

(** *** Text *)

Definition digit (d : Z) : ascii := ascii_of_N (48 + Z.to_N (d mod 10)).

(** [n] written in decimal on exactly [w] digits (the low ones). *)
Fixpoint zfill (w : nat) (n : Z) : string :=
  match w with
  | O => ""
  | S w' => zfill w' (n / 10) +:+ String (digit n) ""
  end.

Definition hex_digit (d : N) : ascii :=
  if (d <? 10)%N then ascii_of_N (48 + d) else ascii_of_N (87 + d).

Fixpoint hex_fill (w : nat) (n : N) : string :=
  match w with
  | O => ""
  | S w' => hex_fill w' (n / 16) +:+ String (hex_digit (n mod 16)%N) ""
  end.

(** [str(oid)]: the 24 lower-case hexadecimal digits of the identifier. *)
Definition str_ObjectId (o : ObjectId) : string := hex_fill 24 (oid_value o).

(** An ASCII character, and a text of ASCII characters. *)
Definition is_ascii_char (c : ascii) : bool := (N_of_ascii c <? 128)%N.

Fixpoint is_ascii (s : string) : bool :=
  match s with
  | EmptyString => true
  | String c s' => is_ascii_char c && is_ascii s'
  end.

(** [c.lower()] on one ASCII character: the letters A-Z move, the others
    stay. *)
Definition lower_ascii (c : ascii) : ascii :=
  let n := N_of_ascii c in
  if ((65 <=? n) && (n <=? 90))%N then ascii_of_N (n + 32) else c.

(** [s.lower()] for an ASCII text [s]. *)
Fixpoint lower (s : string) : string :=
  match s with
  | EmptyString => EmptyString
  | String c s' => String (lower_ascii c) (lower s')
  end.

(** [s.lower()] as the handlers call it: on a text with a character that is
    not ASCII, how Python folds the case is outside the embedding. *)
Definition str_lower (s : string) : option string :=
  if is_ascii s then Some (lower s) else None.

(** [s[:n]]. *)
Fixpoint str_take (n : nat) (s : string) : string :=
  match n, s with
  | S n', String c s' => String c (str_take n' s')
  | _, _ => EmptyString
  end.

(** Truth value of an optional string: [None] and [""] are falsy. *)
Definition truthy_str (o : option string) : bool :=
  match o with
  | Some (String _ _) => true
  | _ => false
  end.

(** *** [isoformat] *)

Definition isoformat_date (d : date) : string :=
  zfill 4 (d_year d) +:+ "-" +:+ zfill 2 (d_month d) +:+ "-" +:+ zfill 2 (d_day d).

Definition isoformat_offset (off : Z) : string :=
  (if (off <? 0)%Z then "-" else "+")
  +:+ zfill 2 (Z.abs off / 60) +:+ ":" +:+ zfill 2 (Z.abs off mod 60).

Definition isoformat (t : datetime) : string :=
  zfill 4 (year t) +:+ "-" +:+ zfill 2 (month t) +:+ "-" +:+ zfill 2 (day t)
  +:+ "T" +:+ zfill 2 (hour t) +:+ ":" +:+ zfill 2 (minute t) +:+ ":" +:+ zfill 2 (second t)
  +:+ (if (microsecond t =? 0)%Z then "" else "." +:+ zfill 6 (microsecond t))
  +:+ match tzinfo t with
      | None => ""
      | Some off => isoformat_offset off
      end.

(** *** Instants

    Days since 1970-01-01 of a civil date of the proleptic Gregorian
    calendar, and the microseconds since the epoch of a [datetime] (a naive
    value is read as UTC, which is how the driver stores it). *)
Definition days_from_civil (y m d : Z) : Z :=
  let y' := (if m <=? 2 then y - 1 else y)%Z in
  let era := (y' / 400)%Z in
  let yoe := (y' - era * 400)%Z in
  let mp := ((m + 9) mod 12)%Z in
  let doy := ((153 * mp + 2) / 5 + d - 1)%Z in
  let doe := (yoe * 365 + yoe / 4 - yoe / 100 + doy)%Z in
  (era * 146097 + doe - 719468)%Z.

Definition instant (t : datetime) : Z :=
  ((((days_from_civil (year t) (month t) (day t) * 24 + hour t) * 60
     + minute t - default 0 (tzinfo t)) * 60 + second t) * 1000000
   + microsecond t)%Z.

(** *** The heap of [dict] objects

    A variable holds [None] or a reference; two variables may hold the same
    reference, and item assignment and [del] change the object in place. *)
Definition loc := positive.
Abbreviation Heap := (gmap loc Doc).
Abbreviation Ref := (option loc).

Definition deref (h : Heap) (l : loc) : Doc := default ∅ (h !! l).

(** [d[k] = v] *)
Definition setitem (l : loc) (k : string) (v : Value) (h : Heap) : Heap :=
  <[l := <[k := v]> (deref h l)]> h.

(** [del d[k]] *)
Definition delitem (l : loc) (k : string) (h : Heap) : Heap :=
  <[l := delete k (deref h l)]> h.

(** [dict(d)]: a new object with the same items. *)
Definition dict_copy (l : loc) (h : Heap) : loc * Heap :=
  let l' := fresh (dom h) in (l', <[l' := deref h l]> h).

(** [not doc] for a variable holding [None] or a dict. *)
Definition falsy (h : Heap) (r : Ref) : bool :=
  match r with
  | None => true
  | Some l => bool_decide (dom (deref h l) = ∅)
  end.

End Py.
Export Py.

(* ===================================================================== *)
(** ** Exceptions and HTTP replies                                        *)
(* ===================================================================== *)

Module Http.

(** The exceptions the program raises or lets through. *)
Inductive Exn :=
| HTTPException (status_code : Z) (detail : string)
| ValidationError (field : string) (msg : string).

(** A computation either returns or raises. *)
Inductive Result (A : Type) :=
| Returns (a : A)
| Raises (e : Exn).
Arguments Returns {A} a.
Arguments Raises {A} e.

#[global] Instance Result_ret : MRet Result := λ A a, Returns a.
#[global] Instance Result_bind : MBind Result := λ A B f m,
  match m with
  | Returns a => f a
  | Raises e => Raises e
  end.

(** What the framework sends for a handler's outcome: the body with status
    200 when it returns, the status and detail of an [HTTPException], and a
    plain 500 for any other exception. *)
Inductive Reply (A : Type) :=
| Ok200 (body : A)
| Failed (status : Z) (detail : string).
Arguments Ok200 {A} body.
Arguments Failed {A} status detail.

Definition respond {A} (r : Result A) : Reply A :=
  match r with
  | Returns a => Ok200 a
  | Raises (HTTPException c d) => Failed c d
  | Raises (ValidationError _ _) => Failed 500 "Internal Server Error"
  end.

Definition status {A} (r : Reply A) : Z :=
  match r with
  | Ok200 _ => 200
  | Failed c _ => c
  end.

(** A 4xx status. *)
Definition client_error (c : Z) : Prop := (400 <= c < 500)%Z.

End Http.
Export Http.

(* ===================================================================== *)
(** ** [schemas.py]                                                       *)
(* ===================================================================== *)

(** Field types are carried by the record types; what is left of pydantic's
    validation is the constraints the models declare: the [ge] bounds and
    [EmailStr].  The syntax check behind [EmailStr] belongs to the
    [email-validator] package; the validators take it as the argument
    [email_ok]. *)

Module schemas.

Module Product.
Record model := new {
  title : string;
  description : option string;
  price : float;
  category : string;
  in_stock : bool;
  image : option string
}.

(** [Product(title=.., description=.., price=.., category=.., in_stock=..)]:
    [image] takes its default, [price] is checked against [ge=0]. *)
Definition init (title : string) (description : option string)
    (price : float) (category : string) (in_stock : bool) : Result model :=
  if PrimFloat.leb 0 price
  then Returns (new title description price category in_stock None)
  else Raises (ValidationError "price" "Input should be greater than or equal to 0").
End Product.

Module OrderItem.
Record model := new {
  product_id : string;
  title : string;
  price : float;
  quantity : Z
}.

Definition errors (it : model) : list Exn :=
  if (1 <=? quantity it)%Z then []
  else [ValidationError "quantity" "Input should be greater than or equal to 1"].
End OrderItem.

Module Customer.
Record model := new {
  name : string;
  email : string;
  address : option string
}.

Definition errors (email_ok : string → bool) (c : model) : list Exn :=
  if email_ok (email c) then []
  else [ValidationError "email" "value is not a valid email address"].
End Customer.

Module Order.
Record model := new {
  items : list OrderItem.model;
  customer : Customer.model;
  note : option string
}.

(** The errors validation reports; none means the payload validates.
    [items] is a plain [List[OrderItem]]: each entry is checked, the
    length is not. *)
Definition errors (email_ok : string → bool) (o : model) : list Exn :=
  flat_map OrderItem.errors (items o) ++ Customer.errors email_ok (customer o).

(** [Order(...)].  An accepted address is kept as it was sent: what
    [EmailStr] rewrites in it is not embedded. *)
Definition validate (email_ok : string → bool) (o : model) : Result model :=
  match errors email_ok o with
  | [] => Returns o
  | e :: _ => Raises e
  end.
End Order.

End schemas.

(* ===================================================================== *)
(** ** The document store                                                 *)
(* ===================================================================== *)

(** The driver calls the program makes, on a database that keeps each
    collection as the list of its documents in insertion order.  The calls
    are operations on that state and always answer; the one call whose
    failure the program reports, [list_collection_names] in the diagnostics
    handler, gets its failure as an argument of the handler.

    Three parts of the engine are embedded on a fragment only, and a call
    outside it yields [None]: regular expressions (literal ASCII characters
    and [.], matched against ASCII text), the sort order (keys that are
    dates), and [distinct] (text fields). *)

Module Mongo.

Record Database := mkDatabase {
  db_name : option string;              (* [db.name], when the handle has one *)
  collections : gmap string (list Doc); (* [db[name]] *)
  next_oid : N                          (* supply of fresh identifiers *)
}.

(** [db[name]]: a collection that was never written is empty. *)
Definition coll (d : Database) (name : string) : list Doc :=
  default [] (collections d !! name).

(** [db.list_collection_names()] *)
Definition list_collection_names (d : Database) : list string :=
  elements (dom (collections d)).

(** [db[name].count_documents({})] *)
Definition count_documents (d : Database) (name : string) : nat :=
  length (coll d name).

(** The driver gives a document without ["_id"] a fresh [ObjectId]; the
    documents this program inserts never carry one of their own. *)
Definition with_id (n : N) (doc : Doc) : Doc :=
  match doc !! "_id" with
  | Some _ => doc
  | None => <["_id" := VObjectId (mkObjectId n)]> doc
  end.

Fixpoint assign_ids (n : N) (docs : list Doc) : list Doc :=
  match docs with
  | [] => []
  | doc :: docs' => with_id n doc :: assign_ids (N.succ n) docs'
  end.

(** [db[name].insert_many(docs)] *)
Definition insert_many (name : string) (docs : list Doc) (d : Database) : Database :=
  mkDatabase (db_name d)
             (<[name := coll d name ++ assign_ids (next_oid d) docs]> (collections d))
             (next_oid d + N.of_nat (length docs)).

(** [db[name].insert_one(doc).inserted_id] *)
Definition insert_one (name : string) (doc : Doc) (d : Database) : ObjectId * Database :=
  let doc' := with_id (next_oid d) doc in
  (match doc' !! "_id" with
   | Some (VObjectId o) => o
   | _ => mkObjectId (next_oid d)
   end,
   mkDatabase (db_name d) (<[name := coll d name ++ [doc']]> (collections d))
              (N.succ (next_oid d))).

(** *** Regular expressions: literal ASCII characters and [.] *)

Inductive Atom := Lit (c : ascii) | AnyChar.

Definition metachar (c : ascii) : bool :=
  bool_decide (c ∈ String.list_ascii_of_string "\^$.|?*+()[]{}").

Fixpoint compile (pattern : string) : option (list Atom) :=
  match pattern with
  | EmptyString => Some []
  | String c p' =>
      a ← (if Ascii.eqb c "." then Some AnyChar
           else if metachar c || negb (is_ascii_char c) then None else Some (Lit c));
      (a ::.) <$> compile p'
  end.

(** One ASCII character against one atom, with option [i]. *)
Definition atom_matches (a : Atom) (c : ascii) : bool :=
  match a with
  | Lit x => Ascii.eqb (lower_ascii x) (lower_ascii c)
  | AnyChar => negb (Ascii.eqb c "010")
  end.

Fixpoint matches_here (re : list Atom) (s : string) : bool :=
  match re, s with
  | [], _ => true
  | a :: re', String c s' => atom_matches a c && matches_here re' s'
  | _ :: _, EmptyString => false
  end.

(** Unanchored search. *)
Fixpoint search (re : list Atom) (s : string) : bool :=
  matches_here re s ||
  match s with
  | EmptyString => false
  | String _ s' => search re s'
  end.

(** *** Filters *)

Inductive Filter :=
| Equals (field : string) (s : string)                     (* {field: s} *)
| Regex (field : string) (pattern : string) (options : string)
                                 (* {field: {"$regex": p, "$options": o}} *)
| Or (alternatives : list Filter).                         (* {"$or": [..]} *)

(** A field matches when it holds a matching string, or an array with a
    matching string among its elements. *)
Definition field_matches (p : string → bool) (v : option Value) : bool :=
  match v with
  | Some (VStr s) => p s
  | Some (VList l) => existsb (λ x, match x with VStr s => p s | _ => false end) l
  | _ => false
  end.

(** A field against a regular expression: the strings it is matched
    against are ASCII, or the answer is outside the embedding. *)
Definition search_text (re : list Atom) (s : string) : option bool :=
  if is_ascii s then Some (search re s) else None.

Fixpoint search_any (re : list Atom) (l : list Value) : option bool :=
  match l with
  | [] => Some false
  | VStr s :: l' => b ← search_text re s; b' ← search_any re l'; Some (b || b')
  | _ :: l' => search_any re l'
  end.

Definition regex_matches (re : list Atom) (v : option Value) : option bool :=
  match v with
  | Some (VStr s) => search_text re s
  | Some (VList l) => search_any re l
  | _ => Some false
  end.

Fixpoint matches (f : Filter) (doc : Doc) : option bool :=
  match f with
  | Equals field s => Some (field_matches (String.eqb s) (doc !! field))
  | Regex field pattern options =>
      if String.eqb options "i"
      then re ← compile pattern; regex_matches re (doc !! field)
      else None
  | Or fs =>
      (fix any (fs : list Filter) : option bool :=
         match fs with
         | [] => Some false
         | f :: fs' => b ← matches f doc; b' ← any fs'; Some (b || b')
         end) fs
  end.

(** A query is the conjunction of its entries; [{}] matches everything. *)
Fixpoint matches_all (query : list Filter) (doc : Doc) : option bool :=
  match query with
  | [] => Some true
  | f :: query' => b ← matches f doc; b' ← matches_all query' doc; Some (b && b')
  end.

(** [db[name].find(query)] *)
Fixpoint select (query : list Filter) (docs : list Doc) : option (list Doc) :=
  match docs with
  | [] => Some []
  | doc :: docs' =>
      b ← matches_all query doc;
      rest ← select query docs';
      Some (if b : bool then doc :: rest else rest)
  end.

Definition find (d : Database) (name : string) (query : list Filter) : option (list Doc) :=
  select query (coll d name).

(** *** Sorting on a date field

    The store keeps dates as milliseconds since the epoch. *)
Definition date_key (field : string) (doc : Doc) : option Z :=
  match doc !! field with
  | Some (VDatetime t) => Some (instant t / 1000)%Z
  | _ => None
  end.

Definition newer_first (field : string) (a b : Doc) : Prop :=
  (default 0 (date_key field b) ≤ default 0 (date_key field a))%Z.

#[global] Instance newer_first_dec field a b : Decision (newer_first field a b).
Proof. unfold newer_first. apply _. Defined.

(** [cursor.sort(field, -1)] *)
Definition sort_desc (field : string) (docs : list Doc) : option (list Doc) :=
  if forallb (λ doc, bool_decide (is_Some (date_key field doc))) docs
  then Some (merge_sort (newer_first field) docs)
  else None.

(** *** [distinct] on a text field

    The values of [field] over the collection, each once: a string counts
    for itself, an array of strings for its elements, a document without
    the field for nothing.  Other values are outside the embedding. *)
Definition text_values (field : string) (doc : Doc) : option (list string) :=
  match doc !! field with
  | None => Some []
  | Some (VStr s) => Some [s]
  | Some (VList l) => mapM (λ x, match x with VStr s => Some s | _ => None end) l
  | Some _ => None
  end.

Definition distinct (d : Database) (name : string) (field : string) : option (list string) :=
  vs ← mapM (text_values field) (coll d name);
  Some (remove_dups (concat vs)).

End Mongo.

(* ===================================================================== *)
(** ** [main.py]                                                          *)
(* ===================================================================== *)

Module main.
Import Mongo.

(** *** Helpers *)

(** One round of the loop [for k, v in list(doc.items())]. *)
Definition convert_item (l : loc) (h : Heap) (kv : string * Value) : Heap :=
  match kv.2 with
  | VDatetime t => setitem l kv.1 (VStr (isoformat t)) h
  | VDate d => setitem l kv.1 (VStr (isoformat_date d)) h
  | _ => h
  end.

(** The same round on the items of a dict, for the proofs. *)
Definition convert_step (d : Doc) (kv : string * Value) : Doc :=
  match kv.2 with
  | VDatetime t => <[kv.1 := VStr (isoformat t)]> d
  | VDate x => <[kv.1 := VStr (isoformat_date x)]> d
  | _ => d
  end.

(** [serialize_doc(doc)], on the heap: the result is the reference the
    function returns, with the heap it leaves. *)
Definition serialize_doc (doc : Ref) (h : Heap) : Ref * Heap :=
  if falsy h doc then (doc, h)
  else
    match doc with
    | None => (doc, h)
    | Some l0 =>
        let '(l, h) := dict_copy l0 h in                 (* doc = dict(doc) *)
        let _id := deref h l !! "_id" in
        let h :=
          match _id with
          | Some (VObjectId o) =>
              delitem l "_id" (setitem l "id" (VStr (str_ObjectId o)) h)
          | _ => h
          end in
        let h := foldl (convert_item l) h (map_to_list (deref h l)) in
        (Some l, h)
    end.

(** [serialize_doc] on a document no other variable refers to, as in
    [[serialize_doc(doc) for doc in items]]: the items of the result. *)
Definition serialized (d : Doc) : Doc :=
  let '(r, h) := serialize_doc (Some 1%positive) {[1%positive := d]} in
  match r with
  | Some l => deref h l
  | None => ∅
  end.

(** *** Models *)

Module OrderItem.
Record model := new {
  product_id : string;
  title : string;
  price : float;
  quantity : Z
}.

Definition errors (it : model) : list Exn :=
  if (1 <=? quantity it)%Z then []
  else [ValidationError "quantity" "Input should be greater than or equal to 1"].

Definition model_dump (it : model) : Doc :=
  <["product_id" := VStr (product_id it)]>
  (<["title" := VStr (title it)]>
  (<["price" := VFloat (price it)]>
  (<["quantity" := VInt (quantity it)]> ∅))).
End OrderItem.

Definition dump_optional (o : option string) : Value :=
  match o with
  | Some s => VStr s
  | None => VNone
  end.

Module CustomerInfo.
Record model := new {
  name : string;
  email : string;
  address : option string
}.

Definition errors (email_ok : string → bool) (c : model) : list Exn :=
  if email_ok (email c) then []
  else [ValidationError "email" "value is not a valid email address"].

Definition model_dump (c : model) : Doc :=
  <["name" := VStr (name c)]>
  (<["email" := VStr (email c)]>
  (<["address" := dump_optional (address c)]> ∅)).
End CustomerInfo.

Module CreateOrder.
Record model := new {
  items : list OrderItem.model;
  customer : CustomerInfo.model;
  note : option string
}.

(** The errors validation reports; none means the payload validates.
    [items] is a plain [List[OrderItem]]: each entry is checked, the
    length is not. *)
Definition errors (email_ok : string → bool) (o : model) : list Exn :=
  flat_map OrderItem.errors (items o) ++ CustomerInfo.errors email_ok (customer o).

Definition model_dump (o : model) : Doc :=
  <["items" := VList (map (λ it, VDict (OrderItem.model_dump it)) (items o))]>
  (<["customer" := VDict (CustomerInfo.model_dump (customer o))]>
  (<["note" := dump_optional (note o)]> ∅)).
End CreateOrder.

Record OrderOut := mkOrderOut { id : string }.

(** *** [GET /] *)

Definition read_root : Result string := Returns "DeskSetups Shop API running".

(** *** [GET /test] *)

Module Diagnostics.
Record response := mk {
  backend : string;
  database : string;
  database_url : option string;
  database_name : option string;
  connection_status : string;
  collections : list string
}.

Definition set_database (v : string) (r : response) : response :=
  mk (backend r) v (database_url r) (database_name r) (connection_status r) (collections r).
Definition set_database_url (v : string) (r : response) : response :=
  mk (backend r) (database r) (Some v) (database_name r) (connection_status r) (collections r).
Definition set_database_name (v : string) (r : response) : response :=
  mk (backend r) (database r) (database_url r) (Some v) (connection_status r) (collections r).
Definition set_connection_status (v : string) (r : response) : response :=
  mk (backend r) (database r) (database_url r) (database_name r) v (collections r).
Definition set_collections (v : list string) (r : response) : response :=
  mk (backend r) (database r) (database_url r) (database_name r) (connection_status r) v.
End Diagnostics.

(** [test_database()].  [DATABASE_URL] is what [os.getenv] yields; [fault]
    is the text of the exception the driver raises from
    [list_collection_names] when the server does not answer.  Outside the
    inner [try] nothing raises, so the outer handler has no case here. *)
Definition test_database (db : option Database) (DATABASE_URL : option string)
    (fault : option string) : Result Diagnostics.response :=
  let response :=
    Diagnostics.mk "✅ Running" "❌ Not Available" None None "Not Connected" [] in
  let response :=
    match db with
    | Some d =>
        let response := Diagnostics.set_database "✅ Available" response in
        let response :=
          Diagnostics.set_database_url
            (if truthy_str DATABASE_URL then "✅ Set" else "❌ Not Set") response in
        let response :=
          Diagnostics.set_database_name
            (match db_name d with Some n => n | None => "✅ Connected" end) response in
        let response := Diagnostics.set_connection_status "Connected" response in
        match fault with
        | None =>
            let collections := list_collection_names d in
            let response := Diagnostics.set_collections (take 10 collections) response in
            Diagnostics.set_database "✅ Connected & Working" response
        | Some e =>
            Diagnostics.set_database ("⚠️  Connected but Error: " +:+ str_take 80 e) response
        end
    | None => Diagnostics.set_database "⚠️  Available but not initialized" response
    end in
  Returns response.

(** *** Sample products *)

Module Sample.
(** The shape of the entries of [SAMPLE_PRODUCTS]. *)
Record entry := mk {
  title : string;
  description : string;
  price : float;
  category : string;
  in_stock : bool;
  image : string
}.

(** [p.copy()]: the entry as a fresh [dict]. *)
Definition copy (p : entry) : Doc :=
  <["title" := VStr (title p)]>
  (<["description" := VStr (description p)]>
  (<["price" := VFloat (price p)]>
  (<["category" := VStr (category p)]>
  (<["in_stock" := VBool (in_stock p)]>
  (<["image" := VStr (image p)]> ∅))))).
End Sample.

Definition inch : string := String (ascii_of_N 34) "".

Definition SAMPLE_PRODUCTS : list Sample.entry := [
  Sample.mk "Retro Gamer Setup"
    "Pink CRT monitor, mechanical keyboard, RGB mouse, and neon desk mat."
    699.0 "gaming" true
    "https://images.unsplash.com/photo-1603484477859-abe6a73f9360?q=80&w=1400&auto=format&fit=crop";
  Sample.mk "Deep Work Productivity"
    ("Dual 27" +:+ inch +:+ " IPS monitors, ergonomic chair, and silent peripherals.")
    1199.0 "productivity" true
    "https://images.unsplash.com/photo-1559163499-413811fb2344?q=80&w=1400&auto=format&fit=crop";
  Sample.mk "Creator Studio"
    ("Ultra-wide 34" +:+ inch +:+ " display, studio speakers, and adjustable boom arm.")
    1899.0 "creator" true
    "https://images.unsplash.com/photo-1518779578993-ec3579fee39f?q=80&w=1400&auto=format&fit=crop";
  Sample.mk "Minimal Zen Desk"
    "Clean aluminum monitor stand, wireless keyboard, and warm lighting."
    899.0 "minimal" true
    "https://images.unsplash.com/photo-1519389950473-47ba0277781c?q=80&w=1400&auto=format&fit=crop";
  Sample.mk "Streamer Pro Rig"
    "High FPS monitor, condenser mic, key light, and capture card."
    1599.0 "streaming" true
    "https://images.unsplash.com/photo-1498050108023-c5249f4df085?q=80&w=1400&auto=format&fit=crop"
].

(** The successive readings of the clock during one call. *)
Definition Clock := nat → datetime.

(** [datetime.now(timezone.utc)]: the [k]-th reading, aware, offset zero. *)
Definition now_utc (clk : Clock) (k : nat) : datetime :=
  let t := clk k in
  mkdatetime (year t) (month t) (day t) (hour t) (minute t) (second t)
             (microsecond t) (Some 0%Z).

(** The body of [for p in SAMPLE_PRODUCTS], from the [k]-th round on. *)
Fixpoint seed_loop (clk : Clock) (k : nat) (ps : list Sample.entry)
    (to_insert : list Doc) : Result (list Doc) :=
  match ps with
  | [] => Returns to_insert
  | p :: ps' =>
      _ ← schemas.Product.init (Sample.title p) (Some (Sample.description p))
            (Sample.price p) (Sample.category p) (Sample.in_stock p);
      let p_with_meta := Sample.copy p in
      let now := now_utc clk k in
      let p_with_meta := <["created_at" := VDatetime now]> p_with_meta in
      let p_with_meta := <["updated_at" := VDatetime now]> p_with_meta in
      seed_loop clk (S k) ps' (to_insert ++ [p_with_meta])
  end.

(** What the loop hands to [insert_many] when every entry validates. *)
Definition seed_docs (clk : Clock) : list Doc :=
  imap (λ k p, <["updated_at" := VDatetime (now_utc clk k)]>
                 (<["created_at" := VDatetime (now_utc clk k)]> (Sample.copy p)))
       SAMPLE_PRODUCTS.

(** [ensure_seed_data()]: the database it leaves. *)
Definition ensure_seed_data (clk : Clock) (db : option Database) : option Database :=
  match db with
  | None => None
  | Some d =>
      let count := count_documents d "product" in
      if (count =? 0)%nat then
        match seed_loop clk 0 SAMPLE_PRODUCTS [] with
        | Returns [] => Some d
        | Returns to_insert => Some (insert_many "product" to_insert d)
        | Raises _ => Some d                       (* except Exception: pass *)
        end
      else Some d
  end.

(** *** [GET /api/products]

    The reply and the database the request leaves; [None] when the
    parameters or the stored documents fall outside the embedded part of
    [str.lower] and of the store. *)
Definition list_products (clk : Clock) (db : option Database)
    (category q : option string) : option (Result (list Doc) * option Database) :=
  let db := ensure_seed_data clk db in
  match db with
  | None => Some (Raises (HTTPException 500 "Database not configured"), db)
  | Some d =>
      let query := [] in
      query ←
        match category with
        | Some c =>
            if truthy_str category
            then lowered ← str_lower c;
                 Some (if negb (String.eqb lowered "all")
                       then query ++ [Equals "category" lowered] else query)
            else Some query
        | None => Some query
        end;
      let query :=
        match q with
        | Some text =>
            if truthy_str q
            then query ++ [Or [Regex "title" text "i"; Regex "description" text "i"]]
            else query
        | None => query
        end in
      items ← find d "product" query ≫= sort_desc "created_at";
      let results := map serialized items in
      Some (Returns results, db)
  end.

(** *** [GET /api/categories] *)

Definition str_le (a b : string) : Prop := String.leb a b = true.

#[global] Instance str_le_dec a b : Decision (str_le a b).
Proof. unfold str_le. apply _. Defined.

Definition list_categories (clk : Clock) (db : option Database)
    : option (Result (list string) * option Database) :=
  let db := ensure_seed_data clk db in
  match db with
  | None => Some (Raises (HTTPException 500 "Database not configured"), db)
  | Some d =>
      cats ← distinct d "product" "category";
      let cats := merge_sort str_le cats in
      Some (Returns ("all" :: cats), db)
  end.

(** *** [POST /api/orders] *)

(** Modelled from the spec: [create_document] of [database.py], which is
    not among the sources.  It inserts the document into the named
    collection and returns the identifier the store generated, as text. *)
Definition create_document (collection_name : string) (data : Doc) (d : Database)
    : string * Database :=
  let '(oid, d') := insert_one collection_name data d in
  (str_ObjectId oid, d').

Definition create_order (db : option Database) (payload : CreateOrder.model)
    : Result OrderOut * option Database :=
  match db with
  | None => (Raises (HTTPException 500 "Database not configured"), db)
  | Some d =>
      match CreateOrder.items payload with
      | [] => (Raises (HTTPException 400 "Order must contain at least one item"), db)
      | _ :: _ =>
          let data := CreateOrder.model_dump payload in
          let '(order_id, d') := create_document "order" data d in
          (Returns (mkOrderOut order_id), Some d')
      end
  end.

(** The route as the framework runs it: the body is validated against
    [CreateOrder] first, and a body that does not validate is answered with
    422 without calling the handler.  An accepted address reaches the
    handler as it was sent: what [EmailStr] rewrites in it is not
    embedded. *)
Definition post_api_orders (email_ok : string → bool) (db : option Database)
    (body : CreateOrder.model) : Reply OrderOut * option Database :=
  match CreateOrder.errors email_ok body with
  | [] => let '(r, db') := create_order db body in (respond r, db')
  | _ :: _ => (Failed 422 "Unprocessable Entity", db)
  end.

End main.

(* ===================================================================== *)
(** ** [main.py]: the class [PyObjectId]                                  *)
(* ===================================================================== *)

(** [PyObjectId.validate], with the two calls into [bson] it makes:
    [ObjectId.is_valid(v)] and [ObjectId(v)].  [bson] takes a string of 24
    characters that [bytes.fromhex] reads without error, and keeps the
    bytes read without counting them.  [bytes.fromhex] skips ASCII white
    space between bytes, so a 24-character string with white space in it
    is an error or yields an identifier of fewer than twelve bytes. *)
Module PyObjectId.

(** What [validate] does: it returns an identifier or raises
    [ValueError("Invalid ObjectId")].  An identifier of twelve bytes is an
    [ObjectId] of the model; [Short] is an identifier whose [binary] has
    another length. *)
Inductive outcome :=
| Valid (o : ObjectId)
| Short (binary : list N)
| ValueError (msg : string).

(** The value of a hexadecimal digit, in either letter case. *)
Definition hex_value (c : ascii) : option N :=
  let n := N_of_ascii c in
  if ((48 <=? n) && (n <=? 57))%N then Some (n - 48)%N
  else if ((97 <=? n) && (n <=? 102))%N then Some (n - 87)%N
  else if ((65 <=? n) && (n <=? 70))%N then Some (n - 55)%N
  else None.

(** ASCII white space: tab, line feed, vertical tab, form feed, carriage
    return and space. *)
Definition whitespace (c : ascii) : bool :=
  let n := N_of_ascii c in ((9 <=? n) && (n <=? 13) || (n =? 32))%N.


(** [bytes.fromhex(s)]: white space is skipped before a byte, then two
    adjacent hexadecimal digits make the byte; anything else is an error
    ([None]). *)
Fixpoint fromhex (s : string) : option (list N) :=
  match s with
  | EmptyString => Some []
  | String c s' =>
      if whitespace c then fromhex s'
      else match s' with
           | String c' s'' =>
               top ← hex_value c; bot ← hex_value c';
               rest ← fromhex s''; Some ((16 * top + bot)%N :: rest)
           | EmptyString => None
           end
  end.

(** The number that a byte string writes, first byte first. *)
Fixpoint from_bytes (bs : list N) : N :=
  match bs with
  | [] => 0
  | b :: bs' => b * 256 ^ N.of_nat (length bs') + from_bytes bs'
  end%N.

(** [ObjectId(s)] on a string. *)
Definition of_str (s : string) : outcome :=
  if (String.length s =? 24)%nat then
    match fromhex s with
    | Some bs =>
        if (length bs =? 12)%nat then Valid (mkObjectId (from_bytes bs)) else Short bs
    | None => ValueError "Invalid ObjectId"
    end
  else ValueError "Invalid ObjectId".

Definition validate (v : Value) : option outcome :=
  match v with
  | VObjectId o => Some (Valid o)                 (* isinstance(v, ObjectId) *)
  | VStr s => Some (of_str s)
  | _ => Some (ValueError "Invalid ObjectId")     (* is_valid: falsy, or TypeError *)
  end.

End PyObjectId.

(* ===================================================================== *)
(** ** The specification's vocabulary                                     *)
(* ===================================================================== *)

(** These definitions follow the words of the specification; the theorems
    below compare them with the code above. *)

Module Spec.
Import Mongo main.

(** A timestamp-typed value becomes its ISO-8601 text, any other value
    stays what it is. *)
Definition to_text (v : Value) : Value :=
  match v with
  | VDatetime t => VStr (isoformat t)
  | VDate d => VStr (isoformat_date d)
  | _ => v
  end.

(** The transport form of a document: an [ObjectId] under ["_id"] moves to
    ["id"] as text, and every field goes through [to_text]. *)
Definition to_transport (d : Doc) : Doc :=
  to_text <$>
    match d !! "_id" with
    | Some (VObjectId o) => delete "_id" (<["id" := VStr (str_ObjectId o)]> d)
    | _ => d
    end.

(** The ASCII text [s] contains the ASCII text [q] as a literal substring,
    letter case aside. *)
Definition contains_ci (q s : string) : Prop :=
  is_ascii q = true ∧ is_ascii s = true
  ∧ ∃ pre post, lower s = pre +:+ lower q +:+ post.

(** The text field [field] of [doc] contains [q]. *)
Definition field_contains (q : string) (field : string) (doc : Doc) : Prop :=
  ∃ s, doc !! field = Some (VStr s) ∧ contains_ci q s.

(** [q] is ASCII text with no character that a regular expression reads
    specially. *)
Definition plain (q : string) : Prop :=
  Forall (λ c, metachar c = false ∧ is_ascii_char c = true)
         (String.list_ascii_of_string q).

(** [c] is the category of a stored product. *)
Definition stored_category (docs : list Doc) (c : string) : Prop :=
  ∃ doc vs, doc ∈ docs ∧ text_values "category" doc = Some vs ∧ c ∈ vs.

(** [doc] has a creation date, the key the listing sorts on. *)
Definition dated (doc : Doc) : bool :=
  bool_decide (is_Some (date_key "created_at" doc)).

(** A product as the seed loader stores it, as far as a search reads it: a
    creation date, a title that is ASCII text, and a description that is
    ASCII text or no text at all. *)
Definition listable (doc : Doc) : bool :=
  dated doc
  && match doc !! "title" with Some (VStr s) => is_ascii s | _ => false end
  && match doc !! "description" with
     | Some (VStr s) => is_ascii s
     | Some (VList _) => false
     | _ => true
     end.

(** A parameter that is absent or ASCII text. *)
Definition ascii_parameter (o : option string) : bool :=
  match o with
  | Some s => is_ascii s
  | None => true
  end.

(** The category of [doc] is text. *)
Definition text_category (doc : Doc) : bool :=
  bool_decide (is_Some (text_values "category" doc)).

(** A stored sample product: a price that is not negative, a category that
    is not empty, and the two timestamps. *)
Definition seeded_product (doc : Doc) : Prop :=
  (∃ f, doc !! "price" = Some (VFloat f) ∧ PrimFloat.leb 0 f = true)
  ∧ (∃ c, doc !! "category" = Some (VStr c) ∧ c ≠ "")
  ∧ (∃ t, doc !! "created_at" = Some (VDatetime t))
  ∧ (∃ t, doc !! "updated_at" = Some (VDatetime t)).

(** The category a listing filters on: none when the parameter is absent,
    empty, or ["all"] in any letter case. *)
Definition category_filter (category : option string) : option string :=
  match category with
  | Some c => if truthy_str category && negb (String.eqb (lower c) "all")
              then Some (lower c) else None
  | None => None
  end.

(** The text a listing searches for: none when the parameter is absent or
    empty. *)
Definition text_filter (q : option string) : option string :=
  match q with
  | Some text => if truthy_str q then Some text else None
  | None => None
  end.

(** The entries of the query that [list_products] builds, by filter. *)
Definition category_query (filter : option string) : list Filter :=
  match filter with
  | Some c => [Equals "category" c]
  | None => []
  end.

Definition text_query (filter : option string) : list Filter :=
  match filter with
  | Some text => [Or [Regex "title" text "i"; Regex "description" text "i"]]
  | None => []
  end.

(** The category field of [doc] is [c], or an array that holds [c]. *)
Definition has_category (c : string) (doc : Doc) : Prop :=
  doc !! "category" = Some (VStr c)
  ∨ ∃ l, doc !! "category" = Some (VList l) ∧ VStr c ∈ l.

(** [b] was created no later than [a], to the millisecond. *)
Definition not_older (a b : Doc) : Prop :=
  ∃ ta tb, date_key "created_at" a = Some ta ∧ date_key "created_at" b = Some tb
           ∧ (tb ≤ ta)%Z.

End Spec.

(* ===================================================================== *)
(** ** Concrete inputs                                                    *)
(* ===================================================================== *)

Module Examples.
Import Mongo main Spec.

(** A clock that reads 2024-03-01 12:00:00, one second later each time. *)
Definition clock0 : Clock :=
  λ k, mkdatetime 2024 3 1 12 0 (Z.of_nat k) 0 None.

(** A configured database with nothing in it. *)
Definition fresh_db : Database := mkDatabase (Some "shop") ∅ 0.

(** A stored document: an identifier and a creation date. *)
Definition stored (doc : Doc) : Doc :=
  <["_id" := VObjectId (mkObjectId 255)]>
    (<["created_at" := VDatetime (mkdatetime 2024 1 15 9 30 0 0 None)]> doc).

(** A product that has no dot in its title or description. *)
Definition desk_lamp : Doc :=
  stored (<["title" := VStr "Desk"]> (<["description" := VStr "Lamp"]>
        (<["category" := VStr "minimal"]> ∅))).

(** A product filed under the category ["all"]. *)
Definition catch_all : Doc :=
  stored (<["title" := VStr "Bundle"]> (<["category" := VStr "all"]> ∅)).

(** A database whose product collection holds one document. *)
Definition db_with (doc : Doc) : Database :=
  mkDatabase (Some "shop") {["product" := [doc]]} 256.

(** A document whose ["_id"] is the string ["sku-1"]. *)
Definition doc_string_id : Doc :=
  <["_id" := VStr "sku-1"]> (<["title" := VStr "Desk"]> ∅).

(** A stand-in for the e-mail syntax check in closed examples: exactly one
    [@], with something before it and a dot after it. *)
Fixpoint has_dot (s : string) : bool :=
  match s with
  | EmptyString => false
  | String c s' => Ascii.eqb c "." || has_dot s'
  end.

Fixpoint after_at (s : string) : option string :=
  match s with
  | EmptyString => None
  | String c s' => if Ascii.eqb c "@" then Some s' else after_at s'
  end.

Definition plain_address (s : string) : bool :=
  match s, after_at s with
  | String c _, Some domain =>
      negb (Ascii.eqb c "@") && has_dot domain
      && bool_decide (after_at domain = None)
  | _, _ => false
  end.

Definition ann : CustomerInfo.model :=
  CustomerInfo.new "Ann" "ann@example.com" None.

(** An order with no item. *)
Definition empty_order : CreateOrder.model := CreateOrder.new [] ann None.

(** The same payload against the [Order] model of [schemas.py]. *)
Definition empty_Order : schemas.Order.model :=
  schemas.Order.new [] (schemas.Customer.new "Ann" "ann@example.com" None) None.

(** A document with a date inside an array and inside a nested document. *)
Definition nested_dates : Doc :=
  <["history" := VList [VDatetime (mkdatetime 2024 1 15 9 30 0 0 None)]]>
  (<["meta" := VDict {["seen" := VDatetime (mkdatetime 2024 1 15 9 30 0 0 None)]}]>
  (<["title" := VStr "Desk"]> ∅)).

(** A product filed under a category with a capital letter. *)
Definition capitalised : Doc :=
  stored (<["title" := VStr "Rig"]> (<["category" := VStr "Gaming"]> ∅)).

(** A catalogue whose second entry has a negative price. *)
Definition bad_catalogue : list Sample.entry := [
  Sample.mk "Desk" "Plain desk." 10 "minimal" true "";
  Sample.mk "Lamp" "Plain lamp." (-1) "minimal" true ""
].

(** An order line and an order that holds it. *)
Definition two_desks : OrderItem.model := OrderItem.new "p1" "Retro Gamer Setup" 699 2.
Definition gift_order : CreateOrder.model := CreateOrder.new [two_desks] ann (Some "gift wrap").

End Examples.

(* ===================================================================== *)
(** ** Properties                                                         *)
(* ===================================================================== *)

Import Mongo main Spec Examples.

(** *** [serialize_doc] *)

Section serialize.
Implicit Types (h : Heap) (d : Doc) (l : loc) (k : string).

Lemma deref_insert h l d : deref (<[l := d]> h) l = d.
Proof. unfold deref. by rewrite lookup_insert_eq. Qed.

Lemma falsy_spec h l : falsy h (Some l) = true ↔ deref h l = ∅.
Proof.
  simpl. rewrite bool_decide_eq_true. apply dom_empty_iff_L.
Qed.

Lemma convert_item_insert h l d kv :
  convert_item l (<[l := d]> h) kv = <[l := convert_step d kv]> h.
Proof.
  unfold convert_item, convert_step, setitem.
  destruct kv.2; try done; rewrite deref_insert; by rewrite insert_insert_eq.
Qed.

Lemma foldl_convert_item h l kvs : ∀ d,
  foldl (convert_item l) (<[l := d]> h) kvs = <[l := foldl convert_step d kvs]> h.
Proof.
  induction kvs as [|kv kvs IH]; intros d; simpl; [done|].
  by rewrite convert_item_insert, IH.
Qed.

Lemma to_text_id v :
  (∀ t, v ≠ VDatetime t) → (∀ x, v ≠ VDate x) → to_text v = v.
Proof. destruct v; naive_solver. Qed.

(** After the rounds for [kvs], the visited keys are converted and the
    others are as they were. *)
Lemma foldl_convert_step_lookup d kvs :
  (∀ k' v, (k', v) ∈ kvs → d !! k' = Some v) →
  ∀ k, foldl convert_step d kvs !! k
       = if decide (k ∈ kvs.*1) then to_text <$> d !! k else d !! k.
Proof.
  induction kvs as [|[k0 v0] kvs IH] using rev_ind; intros Hin k; [done|].
  rewrite foldl_app. simpl.
  assert (Hd0 : d !! k0 = Some v0).
  { apply Hin, elem_of_app. right. apply list_elem_of_singleton. done. }
  assert (IH' : ∀ k, foldl convert_step d kvs !! k
            = if decide (k ∈ kvs.*1) then to_text <$> d !! k else d !! k).
  { apply IH. intros k' v Hkv. apply Hin, elem_of_app. by left. }
  clear IH.
  assert (Hstep : ∀ acc, (acc !! k0 = Some v0 ∨ acc !! k0 = Some (to_text v0)) →
            convert_step acc (k0, v0) !! k
            = if decide (k = k0) then Some (to_text v0) else acc !! k).
  { intros acc Hacc. unfold convert_step; simpl.
    destruct (decide (k = k0)) as [->|Hk].
    - destruct v0; simpl in *; rewrite ?lookup_insert_eq; by destruct Hacc.
    - destruct v0; simpl; by rewrite ?lookup_insert_ne. }
  assert (Hmem : k ∈ (kvs ++ [(k0, v0)]).*1 ↔ k ∈ kvs.*1 ∨ k = k0).
  { rewrite fmap_app, elem_of_app. simpl. by rewrite list_elem_of_singleton. }
  rewrite Hstep.
  - rewrite IH'.
    destruct (decide (k = k0)) as [Hk|Hk];
      destruct (decide (k ∈ (kvs ++ [(k0, v0)]).*1)) as [Hk1|Hk1];
      destruct (decide (k ∈ kvs.*1)) as [Hk2|Hk2];
      try tauto; try done; subst; by rewrite Hd0.
  - rewrite IH', Hd0. destruct (decide (k0 ∈ kvs.*1)); auto.
Qed.

Lemma foldl_convert_step d :
  foldl convert_step d (map_to_list d) = to_text <$> d.
Proof.
  apply map_eq. intros k. rewrite lookup_fmap, foldl_convert_step_lookup.
  - case_decide as Hk; [done|].
    destruct (d !! k) as [v|] eqn:Hd; [|done].
    exfalso. apply Hk. apply list_elem_of_fmap. exists (k, v).
    split; [done|]. by apply elem_of_map_to_list.
  - intros k' v. by rewrite elem_of_map_to_list.
Qed.

(** What [serialize_doc] does to a non-empty document: it allocates one
    new dict, holding the transport form, and touches nothing else. *)
Lemma serialize_doc_alloc h l d :
  h !! l = Some d → d ≠ ∅ →
  serialize_doc (Some l) h
  = (Some (fresh (dom h)), <[fresh (dom h) := to_transport d]> h).
Proof.
  intros Hl Hne. unfold serialize_doc.
  assert (Hd : deref h l = d) by (unfold deref; by rewrite Hl).
  destruct (falsy h (Some l)) eqn:Hf.
  { apply falsy_spec in Hf. congruence. }
  unfold dict_copy. rewrite Hd. cbv zeta. rewrite deref_insert.
  f_equal. unfold to_transport.
  destruct (d !! "_id") as [[]|];
    unfold delitem, setitem;
    rewrite ?deref_insert, ?insert_insert_eq;
    by rewrite foldl_convert_item, foldl_convert_step.
Qed.

Lemma serialize_doc_falsy h r :
  falsy h r = true → serialize_doc r h = (r, h).
Proof. intros Hf. unfold serialize_doc. by rewrite Hf. Qed.

Lemma fresh_loc_unused h : h !! fresh (dom h) = None.
Proof. apply not_elem_of_dom. apply is_fresh. Qed.

Lemma serialized_to_transport d : serialized d = to_transport d.
Proof.
  unfold serialized. rewrite <- insert_empty.
  destruct (decide (d = ∅)) as [->|Hne].
  - rewrite serialize_doc_falsy.
    + by rewrite deref_insert.
    + apply falsy_spec. apply deref_insert.
  - rewrite (serialize_doc_alloc _ _ d); [|apply lookup_insert_eq|done].
    by rewrite deref_insert.
Qed.
End serialize.

(** C4. [serialize_doc] never changes a dict that exists when it is called
    (it works on a copy); given [None] or an empty dict it returns its
    argument itself; given any other document it returns a new dict in
    which an [ObjectId] under ["_id"] has moved to ["id"] as its text and
    ["_id"] is gone, every date-typed field holds its ISO-8601 text, and
    every other field is as it was. *)
Theorem serialize_doc_contract (h : Heap) (doc : Ref) :
  (∀ l d, h !! l = Some d → (serialize_doc doc h).2 !! l = Some d)
  ∧ (falsy h doc = true → serialize_doc doc h = (doc, h))
  ∧ (∀ l d, doc = Some l → h !! l = Some d → d ≠ ∅ →
       ∃ l', (serialize_doc doc h).1 = Some l' ∧ h !! l' = None ∧
         let d' := deref (serialize_doc doc h).2 l' in
         (∀ o, d !! "_id" = Some (VObjectId o) →
            d' !! "id" = Some (VStr (str_ObjectId o)) ∧ d' !! "_id" = None ∧
            ∀ k, k ≠ "_id" → k ≠ "id" → d' !! k = to_text <$> d !! k)
         ∧ ((∀ o, d !! "_id" ≠ Some (VObjectId o)) →
            ∀ k, d' !! k = to_text <$> d !! k)).
Proof.
  split; [|split].
  - intros l d Hl.
    destruct (falsy h doc) eqn:Hf.
    { by rewrite serialize_doc_falsy. }
    destruct doc as [l0|]; [|done].
    assert (Hne : deref h l0 ≠ ∅).
    { intros He. apply falsy_spec in He. congruence. }
    unfold deref in Hne. destruct (h !! l0) as [d0|] eqn:Hl0; [|done].
    rewrite (serialize_doc_alloc h l0 d0) by done. simpl.
    rewrite lookup_insert_ne; [done|].
    intros He. pose proof (fresh_loc_unused h) as Hfr. congruence.
  - apply serialize_doc_falsy.
  - intros l d -> Hl Hne. exists (fresh (dom h)).
    rewrite (serialize_doc_alloc h l d) by done. simpl.
    split; [done|]. split; [apply fresh_loc_unused|].
    rewrite deref_insert. unfold to_transport. split.
    + intros o Ho. rewrite Ho. repeat split.
      * by rewrite lookup_fmap, lookup_delete_ne, lookup_insert_eq.
      * by rewrite lookup_fmap, lookup_delete_eq.
      * intros k Hk1 Hk2.
        by rewrite lookup_fmap, lookup_delete_ne, lookup_insert_ne.
    + intros Hno k. rewrite lookup_fmap.
      destruct (d !! "_id") as [[]|] eqn:Hid; try done. by destruct (Hno o).
Qed.

(** The transport form of a stored product. *)
Example serialized_desk_lamp :
  serialized desk_lamp
  = <["id" := VStr "0000000000000000000000ff"]>
      (<["created_at" := VStr "2024-01-15T09:30:00"]>
      (<["title" := VStr "Desk"]>
      (<["description" := VStr "Lamp"]>
      (<["category" := VStr "minimal"]> ∅)))).
Proof. reflexivity. Qed.

(** C10. When ["_id"] holds anything but an [ObjectId] (a plain string, for
    one), [serialize_doc] leaves it under ["_id"] and adds no ["id"]: the
    result has an ["id"] exactly when the argument had one.  An [ObjectId]
    is the one kind of value that is renamed. *)
Theorem serialize_doc_foreign_id (h : Heap) (l : loc) (d : Doc) (v : Value) :
  h !! l = Some d → d !! "_id" = Some v →
  ∃ l', (serialize_doc (Some l) h).1 = Some l' ∧
    let d' := deref (serialize_doc (Some l) h).2 l' in
    match v with
    | VObjectId o => d' !! "_id" = None ∧ d' !! "id" = Some (VStr (str_ObjectId o))
    | _ => d' !! "_id" = Some (to_text v) ∧ d' !! "id" = to_text <$> d !! "id"
    end.
Proof.
  intros Hl Hid. exists (fresh (dom h)).
  assert (Hne : d ≠ ∅) by (intros ->; by rewrite lookup_empty in Hid).
  rewrite (serialize_doc_alloc h l d) by done. simpl.
  split; [done|]. rewrite deref_insert. unfold to_transport. rewrite Hid.
  destruct v; rewrite !lookup_fmap, ?Hid; try done.
  by rewrite lookup_delete_eq, lookup_delete_ne, lookup_insert_eq.
Qed.

Lemma serialize_doc_foreign_id_witness :
  ∃ l', (serialize_doc (Some 1%positive) {[1%positive := doc_string_id]}).1 = Some l' ∧
    let d' := deref (serialize_doc (Some 1%positive) {[1%positive := doc_string_id]}).2 l' in
    d' !! "_id" = Some (VStr "sku-1") ∧ d' !! "id" = None.
Proof.
  apply (serialize_doc_foreign_id {[1%positive := doc_string_id]} 1%positive
           doc_string_id (VStr "sku-1")); reflexivity.
Defined.

(** *** The seed loader *)

Section seed.
Implicit Types (clk : Clock) (d : Database).

(** The loop validates each entry, stamps it and appends it. *)
Lemma seed_loop_valid clk ps :
  Forall (λ p, PrimFloat.leb 0 (Sample.price p) = true) ps →
  ∀ k acc,
    seed_loop clk k ps acc
    = Returns (acc ++ imap (λ i p,
        <["updated_at" := VDatetime (now_utc clk (k + i))]>
          (<["created_at" := VDatetime (now_utc clk (k + i))]> (Sample.copy p))) ps).
Proof.
  induction 1 as [|p ps Hp _ IH]; intros k acc; simpl.
  - by rewrite app_nil_r.
  - unfold schemas.Product.init. rewrite Hp. simpl.
    rewrite IH, <- app_assoc. simpl. rewrite Nat.add_0_r.
    do 3 f_equal. apply imap_ext. intros i x _. simpl.
    by rewrite Nat.add_succ_r.
Qed.

Lemma sample_prices : Forall (λ p, PrimFloat.leb 0 (Sample.price p) = true) SAMPLE_PRODUCTS.
Proof. repeat constructor. Qed.

Lemma seed_loop_samples clk :
  seed_loop clk 0 SAMPLE_PRODUCTS [] = Returns (seed_docs clk).
Proof. by rewrite (seed_loop_valid clk _ sample_prices). Qed.

Lemma coll_insert_many name docs d :
  coll (insert_many name docs d) name = coll d name ++ assign_ids (next_oid d) docs.
Proof. unfold coll at 1. simpl. by rewrite lookup_insert_eq. Qed.

Lemma ensure_seed_data_empty clk d :
  coll d "product" = [] →
  ensure_seed_data clk (Some d) = Some (insert_many "product" (seed_docs clk) d).
Proof.
  intros He. unfold ensure_seed_data, count_documents.
  rewrite He, seed_loop_samples. reflexivity.
Qed.

Lemma ensure_seed_data_nonempty clk d :
  coll d "product" ≠ [] → ensure_seed_data clk (Some d) = Some d.
Proof.
  intros Hne. unfold ensure_seed_data, count_documents.
  destruct (coll d "product"); [done|reflexivity].
Qed.

(** Whatever it finds, the seed loader leaves a configured database
    configured and a missing one missing. *)
Lemma ensure_seed_data_some clk d : ∃ d', ensure_seed_data clk (Some d) = Some d'.
Proof.
  destruct (decide (coll d "product" = [])) as [He|Hne].
  - rewrite ensure_seed_data_empty by done. eauto.
  - rewrite ensure_seed_data_nonempty by done. eauto.
Qed.

Lemma with_id_subseteq n (doc : Doc) : doc ⊆ with_id n doc.
Proof.
  unfold with_id. destruct (doc !! "_id") eqn:Hid; [done|].
  by apply insert_subseteq.
Qed.

Lemma assign_ids_subseteq docs : ∀ n, Forall2 (⊆) docs (assign_ids n docs).
Proof.
  induction docs as [|doc docs IH]; intros n; simpl; constructor;
    [apply with_id_subseteq|apply IH].
Qed.

Lemma length_assign_ids docs : ∀ n, length (assign_ids n docs) = length docs.
Proof. induction docs as [|doc docs IH]; intros n; simpl; [done|]. by rewrite IH. Qed.

Lemma Forall2_imap_r {A B} (P : A → B → Prop) (f : nat → A → B) (l : list A) :
  (∀ i x, P x (f i x)) → Forall2 P l (imap f l).
Proof.
  revert f. induction l as [|x l IH]; intros f Hf; simpl; constructor;
    [apply Hf|apply IH; intros i y; apply Hf].
Qed.

Lemma Forall_imap_r {A B} (P : B → Prop) (f : nat → A → B) (l : list A) :
  (∀ i x, x ∈ l → P (f i x)) → Forall P (imap f l).
Proof.
  revert f. induction l as [|x l IH]; intros f Hf; simpl; constructor.
  - apply Hf. by left.
  - apply IH. intros i y Hy. apply Hf. by right.
Qed.

Lemma seeded_product_mono (d1 d2 : Doc) :
  d1 ⊆ d2 → seeded_product d1 → seeded_product d2.
Proof.
  intros Hsub (Hp & Hc & Ht & Hu). unfold seeded_product.
  destruct Hp as (f & Hf & Hge), Hc as (c & Hc & Hne), Ht as (t & Ht), Hu as (u & Hu).
  split; [exists f|split; [exists c|split; [exists t|exists u]]];
    try split; try done; by eapply lookup_weaken.
Qed.

Lemma stamped_sample clk k p :
  PrimFloat.leb 0 (Sample.price p) = true → Sample.category p ≠ "" →
  seeded_product (<["updated_at" := VDatetime (now_utc clk k)]>
                    (<["created_at" := VDatetime (now_utc clk k)]> (Sample.copy p))).
Proof.
  intros Hp Hc. unfold seeded_product, Sample.copy.
  split; [exists (Sample.price p)|split; [exists (Sample.category p)|split; eexists]];
    try split; try done; by simplify_map_eq.
Qed.

Lemma sample_categories : Forall (λ p, Sample.category p ≠ "") SAMPLE_PRODUCTS.
Proof. repeat constructor; discriminate. Qed.

Lemma seeded_products clk n : Forall seeded_product (assign_ids n (seed_docs clk)).
Proof.
  assert (Hdocs : Forall seeded_product (seed_docs clk)).
  { unfold seed_docs. apply Forall_imap_r. intros k p Hin.
    pose proof sample_prices as Hp. pose proof sample_categories as Hc.
    rewrite Forall_forall in Hp, Hc.
    apply stamped_sample; [by apply Hp|by apply Hc]. }
  pose proof (assign_ids_subseteq (seed_docs clk) n) as Hsub.
  revert Hdocs. induction Hsub as [|d1 d2 l1 l2 H12 _ IH]; intros Hdocs; [done|].
  apply Forall_cons in Hdocs as [H1 Hl]. constructor; [|by apply IH].
  by apply (seeded_product_mono d1).
Qed.

Lemma seeded_samples clk n :
  Forall2 (λ p doc, Sample.copy p ⊆ doc) SAMPLE_PRODUCTS (assign_ids n (seed_docs clk)).
Proof.
  assert (Hdocs : Forall2 (λ p doc, Sample.copy p ⊆ doc) SAMPLE_PRODUCTS (seed_docs clk)).
  { unfold seed_docs. apply Forall2_imap_r. intros k p.
    etrans; [|apply insert_subseteq]; [apply insert_subseteq|]; by simplify_map_eq. }
  pose proof (assign_ids_subseteq (seed_docs clk) n) as Hsub.
  revert Hdocs. generalize SAMPLE_PRODUCTS.
  induction Hsub as [|d1 d2 l1 l2 H12 _ IH]; intros ps Hdocs.
  - by inversion Hdocs.
  - inversion Hdocs as [|p ? ps' ? Hp Hps]; subst. constructor; [|by apply IH].
    by etrans.
Qed.
End seed.

(** *** The store *)

Section store.
Implicit Types (docs : list Doc) (query : list Filter).

Lemma select_all docs : select [] docs = Some docs.
Proof. induction docs as [|doc docs IH]; simpl; [done|]. by rewrite IH. Qed.

Lemma select_elem_of query docs : ∀ found,
  select query docs = Some found →
  ∀ doc, doc ∈ found ↔ doc ∈ docs ∧ matches_all query doc = Some true.
Proof.
  induction docs as [|doc0 docs IH]; simpl; intros found Hsel doc.
  - injection Hsel as <-. split; [by intros ?%elem_of_nil|by intros [?%elem_of_nil _]].
  - destruct (matches_all query doc0) as [b|] eqn:Hm; [|done]. simpl in Hsel.
    destruct (select query docs) as [rest|] eqn:Hrest; [|done]. simpl in Hsel.
    injection Hsel as <-. specialize (IH rest eq_refl doc).
    destruct b.
    + rewrite !elem_of_cons, IH. split.
      * intros [->|[? ?]]; auto.
      * intros [[->|?] ?]; auto.
    + rewrite elem_of_cons, IH. split.
      * intros [? ?]; auto.
      * intros [[->|?] ?]; [congruence|auto].
Qed.

Lemma select_defined query docs :
  Forall (λ doc, is_Some (matches_all query doc)) docs → is_Some (select query docs).
Proof.
  induction 1 as [|doc docs [b Hb] _ [rest IH]]; simpl; [by eexists|].
  rewrite Hb, IH. simpl. by eexists.
Qed.

Lemma sort_desc_sorted field docs :
  Forall (λ doc, is_Some (date_key field doc)) docs →
  sort_desc field docs = Some (merge_sort (newer_first field) docs).
Proof.
  intros Hall. unfold sort_desc.
  replace (forallb _ docs) with true; [done|].
  symmetry. apply forallb_forall. rewrite Forall_forall in Hall.
  intros doc Hin. apply bool_decide_eq_true, Hall. by apply list_elem_of_In.
Qed.

Lemma sort_desc_Permutation field docs sorted :
  sort_desc field docs = Some sorted → sorted ≡ₚ docs.
Proof.
  unfold sort_desc. destruct (forallb _ docs); [|done].
  intros [= <-]. apply merge_sort_Permutation.
Qed.

Lemma seeded_product_dated doc :
  seeded_product doc → is_Some (date_key "created_at" doc).
Proof. intros (_ & _ & [t Ht] & _). unfold date_key. rewrite Ht. by eexists. Qed.
End store.

(** *** The product listing, with its query named by the two filters *)

Section unfolded.
Implicit Types (clk : Clock) (db : option Database).




Lemma list_products_unfold clk db category q :
  list_products clk db category q
  = match ensure_seed_data clk db
          return option (Result (list Doc) * option Database) with
    | None => Some (Raises (HTTPException 500 "Database not configured"), None)
    | Some d' =>
        if ascii_parameter category then
          items ← find d' "product"
                    (category_query (category_filter category)
                     ++ text_query (text_filter q))
                  ≫= sort_desc "created_at";
          Some (Returns (map serialized items), Some d')
        else None
    end.
Proof.
  unfold list_products. destruct (ensure_seed_data clk db) as [d'|]; [|done].
  unfold category_filter, text_filter, ascii_parameter, str_lower.
  destruct category as [[|a c]|]; cbn [truthy_str andb mbind option_bind];
    try destruct (is_ascii (String a c)); cbn [mbind option_bind];
    try destruct (negb _); destruct q as [[|b text]|]; done.
Qed.

Lemma list_products_db clk db category q r db' :
  list_products clk db category q = Some (r, db') → db' = ensure_seed_data clk db.
Proof.
  rewrite list_products_unfold.
  destruct (ensure_seed_data clk db); [|by intros [= _ <-]].
  destruct (ascii_parameter category); [|done].
  destruct (_ ≫= sort_desc "created_at"); simpl; [|done]. by intros [= _ <-].
Qed.
End unfolded.

(** *** Seeding, as the listing requests run it *)

(** C2. When the product collection holds a document, the seed step changes
    nothing in the database, however many times it runs, and so does a
    product listing or a category listing that runs it. *)
Theorem seed_noop_when_stocked (d : Database) :
  coll d "product" ≠ [] →
  (∀ clks : list Clock, foldl (λ db clk, ensure_seed_data clk db) (Some d) clks = Some d)
  ∧ (∀ clk category q r db',
       list_products clk (Some d) category q = Some (r, db') → db' = Some d)
  ∧ (∀ clk r db', list_categories clk (Some d) = Some (r, db') → db' = Some d).
Proof.
  intros Hne. split; [|split].
  - induction clks as [|clk clks IH]; [done|]. cbn [foldl].
    by rewrite ensure_seed_data_nonempty.
  - intros clk category q r db' Hl. apply list_products_db in Hl.
    by rewrite Hl, ensure_seed_data_nonempty.
  - intros clk r db'. unfold list_categories.
    rewrite ensure_seed_data_nonempty by done.
    destruct (distinct d "product" "category"); simpl; [|done]. by intros [= _ <-].
Qed.

Lemma seed_noop_when_stocked_witness :
  foldl (λ db clk, ensure_seed_data clk db) (Some (db_with desk_lamp))
        [clock0; clock0; clock0] = Some (db_with desk_lamp).
Proof.
  apply (seed_noop_when_stocked (db_with desk_lamp)). discriminate.
Defined.

(** C3. When the product collection is empty, the seed step of a product
    listing leaves exactly the five sample products in it, each with a
    price that is not negative, a category that is not empty, and the
    [created_at] and [updated_at] timestamps; the listing returns five
    items. *)
Theorem seed_when_empty (clk : Clock) (d : Database) :
  coll d "product" = [] →
  ∃ d', ensure_seed_data clk (Some d) = Some d'
    ∧ length (coll d' "product") = 5
    ∧ Forall2 (λ p doc, Sample.copy p ⊆ doc) SAMPLE_PRODUCTS (coll d' "product")
    ∧ Forall seeded_product (coll d' "product")
    ∧ ∃ items, list_products clk (Some d) None None = Some (Returns items, Some d')
               ∧ length items = 5.
Proof.
  intros He. exists (insert_many "product" (seed_docs clk) d).
  assert (Hcoll : coll (insert_many "product" (seed_docs clk) d) "product"
                  = assign_ids (next_oid d) (seed_docs clk)).
  { by rewrite coll_insert_many, He. }
  split; [by apply ensure_seed_data_empty|].
  rewrite Hcoll. split; [by rewrite length_assign_ids|].
  split; [apply seeded_samples|]. split; [apply seeded_products|].
  rewrite list_products_unfold, ensure_seed_data_empty by done.
  cbn [ascii_parameter category_filter text_filter category_query text_query app].
  unfold find. rewrite Hcoll, select_all. cbn [mbind option_bind].
  rewrite sort_desc_sorted.
  - eexists. split; [reflexivity|].
    by rewrite length_map, merge_sort_Permutation, length_assign_ids.
  - eapply Forall_impl; [apply seeded_products|]. apply seeded_product_dated.
Qed.

Lemma seed_when_empty_witness :
  ∃ d', ensure_seed_data clock0 (Some fresh_db) = Some d'
    ∧ length (coll d' "product") = 5
    ∧ Forall2 (λ p doc, Sample.copy p ⊆ doc) SAMPLE_PRODUCTS (coll d' "product")
    ∧ Forall seeded_product (coll d' "product")
    ∧ ∃ items, list_products clock0 (Some fresh_db) None None
                 = Some (Returns items, Some d')
               ∧ length items = 5.
Proof. apply (seed_when_empty clock0 fresh_db). reflexivity. Defined.

(** *** [POST /api/orders] *)

(** C1, as stated, fails where the store is not configured: the handler
    checks the store before it looks at the items, and answers 500. *)
Lemma create_order_disabled_store :
  CreateOrder.items empty_order = []
  ∧ respond (create_order None empty_order).1 = Failed 500 "Database not configured"
  ∧ ¬ client_error 500.
Proof. split; [done|]. split; [done|]. unfold client_error. lia. Qed.

(** C1, amended. With a configured store, an order whose item list is empty
    is answered by the handler with 400 and the database is left as it was;
    through the route the status is 4xx whether or not the rest of the
    payload validates.  With the store not configured the answer is 500,
    and there is still no insertion. *)
Theorem create_order_empty_items (d : Database) (payload : CreateOrder.model) :
  CreateOrder.items payload = [] →
  create_order (Some d) payload
  = (Raises (HTTPException 400 "Order must contain at least one item"), Some d)
  ∧ (∀ email_ok,
       client_error (status (post_api_orders email_ok (Some d) payload).1)
       ∧ (post_api_orders email_ok (Some d) payload).2 = Some d)
  ∧ create_order None payload
    = (Raises (HTTPException 500 "Database not configured"), None).
Proof.
  intros Hitems. unfold post_api_orders, create_order. rewrite Hitems.
  split; [done|]. split; [|done]. intros email_ok.
  destruct (CreateOrder.errors email_ok payload); simpl;
    unfold client_error; split; (lia || done).
Qed.

Lemma create_order_empty_items_witness :
  create_order (Some fresh_db) empty_order
  = (Raises (HTTPException 400 "Order must contain at least one item"), Some fresh_db).
Proof. apply (create_order_empty_items fresh_db empty_order). reflexivity. Defined.

(** C9, as stated, fails: a payload with no item and a well-formed customer
    passes validation, against [CreateOrder] and against [Order]. *)
Lemma empty_items_validate :
  CreateOrder.items empty_order = []
  ∧ CreateOrder.errors plain_address empty_order = []
  ∧ schemas.Order.items empty_Order = []
  ∧ schemas.Order.validate plain_address empty_Order = Returns empty_Order.
Proof. repeat split. Qed.

(** C9, amended. Validation does not look at the length of [items]: a
    payload with no item validates whenever the customer's e-mail does,
    against [CreateOrder] and against [Order] alike.  What rejects it is
    the check in the handler, with 400. *)
Theorem empty_items_pass_validation (email_ok : string → bool)
    (name email : string) (address note : option string) :
  email_ok email = true →
  CreateOrder.errors email_ok
    (CreateOrder.new [] (CustomerInfo.new name email address) note) = []
  ∧ schemas.Order.errors email_ok
      (schemas.Order.new [] (schemas.Customer.new name email address) note) = []
  ∧ ∀ d, post_api_orders email_ok (Some d)
           (CreateOrder.new [] (CustomerInfo.new name email address) note)
         = (Failed 400 "Order must contain at least one item", Some d).
Proof.
  intros Hok.
  unfold post_api_orders, CreateOrder.errors, schemas.Order.errors,
    CustomerInfo.errors, schemas.Customer.errors. simpl. by rewrite Hok.
Qed.

Lemma empty_items_pass_validation_witness :
  CreateOrder.errors plain_address empty_order = []
  ∧ schemas.Order.errors plain_address empty_Order = []
  ∧ ∀ d, post_api_orders plain_address (Some d) empty_order
         = (Failed 400 "Order must contain at least one item", Some d).
Proof.
  apply (empty_items_pass_validation plain_address "Ann" "ann@example.com" None None).
  reflexivity.
Defined.

(** *** [GET /api/products] and [GET /api/categories] *)



(** *** [GET /test] *)

Lemma length_str_take n : ∀ s, String.length (str_take n s) ≤ n.
Proof.
  induction n as [|n IH]; intros [|c s]; simpl; try lia.
  specialize (IH s). lia.
Qed.

Lemma str_take_prefix n : ∀ s, ∃ rest, s = str_take n s +:+ rest.
Proof.
  induction n as [|n IH]; intros s.
  - exists s. by destruct s.
  - destruct s as [|c s]; [by exists ""|].
    destruct (IH s) as [rest Hrest]. exists rest.
    change (String c s = String c (str_take n s +:+ rest)). by f_equal.
Qed.

(** C8. The diagnostics handler returns in every case, so the reply is a
    200: with the store not configured, with the store answering, and with
    [list_collection_names] raising.  In the last case the text of the
    exception, cut to its first 80 characters at most, is part of the
    ["database"] field of the body.  At most ten collection names are
    listed. *)
Theorem test_database_always_200 (db : option Database)
    (DATABASE_URL fault : option string) :
  ∃ body,
    test_database db DATABASE_URL fault = Returns body
    ∧ status (respond (test_database db DATABASE_URL fault)) = 200%Z
    ∧ (∀ d e, db = Some d → fault = Some e →
         Diagnostics.database body = "⚠️  Connected but Error: " +:+ str_take 80 e
         ∧ String.length (str_take 80 e) ≤ 80
         ∧ ∃ rest, e = str_take 80 e +:+ rest)
    ∧ (db = None →
         Diagnostics.database body = "⚠️  Available but not initialized")
    ∧ length (Diagnostics.collections body) ≤ 10.
Proof.
  eexists. split; [reflexivity|]. split; [reflexivity|]. split; [|split].
  - intros d e -> ->.
    split; [reflexivity|]. split; [apply length_str_take|apply str_take_prefix].
  - by intros ->.
  - destruct db as [d|]; [|simpl; lia].
    destruct fault; simpl; [lia|]. rewrite length_take. lia.
Qed.

(** The server does not answer: the reply is still a body. *)
Example test_database_unreachable :
  test_database (Some fresh_db) (Some "mongodb://db:27017") (Some "connection refused")
  = Returns (Diagnostics.mk "✅ Running" "⚠️  Connected but Error: connection refused"
               (Some "✅ Set") (Some "shop") "Connected" []).
Proof. reflexivity. Qed.

(** *** Search text and regular expressions *)

Section search.
Implicit Types (q s : string) (doc : Doc).

(** A pattern without special characters compiles to its characters. *)
Lemma compile_plain q :
  plain q → compile q = Some (Lit <$> String.list_ascii_of_string q).
Proof.
  unfold plain. induction q as [|c q IH]; simpl; intros Hq; [done|].
  apply Forall_cons in Hq as [[Hc Ha] Hq].
  assert (Hdot : Ascii.eqb c "." = false).
  { destruct (Ascii.eqb_spec c "."%char) as [->|]; [|done]. by vm_compute in Hc. }
  rewrite Hdot, Hc, Ha. simpl. by rewrite IH.
Qed.

Lemma plain_ascii q : plain q → is_ascii q = true.
Proof.
  unfold plain. induction q as [|c q IH]; simpl; intros Hq; [done|].
  apply Forall_cons in Hq as [[_ Ha] Hq]. by rewrite Ha, IH.
Qed.

Lemma matches_here_lit q : ∀ s,
  matches_here (Lit <$> String.list_ascii_of_string q) s = true
  ↔ ∃ post, lower s = lower q +:+ post.
Proof.
  induction q as [|x q IH]; intros s; simpl.
  - split; [by exists (lower s)|done].
  - destruct s as [|c s]; simpl.
    + split; [done|]. by intros [post Hpost].
    + rewrite andb_true_iff, IH. split.
      * intros [Hc [post Hpost]]. exists post.
        apply Ascii.eqb_eq in Hc. by rewrite Hc, Hpost.
      * intros [post Hpost]. injection Hpost as Hc Hpost. split; [|by exists post].
        apply Ascii.eqb_eq. done.
Qed.

Lemma search_substring q : ∀ s,
  search (Lit <$> String.list_ascii_of_string q) s = true
  ↔ ∃ pre post, lower s = pre +:+ lower q +:+ post.
Proof.
  induction s as [|c s IH].
  - cbn [search]. rewrite orb_false_r, matches_here_lit. split.
    + intros [post Hpost]. by exists "", post.
    + intros (pre & post & Hpost). destruct pre; [by exists post|done].
  - cbn [search]. rewrite orb_true_iff, matches_here_lit, IH. split.
    + intros [[post Hpost]|(pre & post & Hpost)].
      * by exists "", post.
      * exists (String (lower_ascii c) pre), post. simpl. by rewrite Hpost.
    + intros (pre & post & Hpost). destruct pre as [|a pre].
      * left. by exists post.
      * right. exists pre, post. simpl in Hpost. by injection Hpost.
Qed.

(** On a pattern of plain characters and an ASCII text, the search of the
    engine is the substring test of the specification. *)
Lemma search_lit q s :
  is_ascii q = true → is_ascii s = true →
  search (Lit <$> String.list_ascii_of_string q) s = true ↔ contains_ci q s.
Proof.
  intros Hq Hs. unfold contains_ci. rewrite search_substring. tauto.
Qed.

(** A field that holds ASCII text, or no text at all, against a pattern of
    plain characters. *)
Lemma regex_matches_text q doc field :
  is_ascii q = true →
  match doc !! field with
  | Some (VStr s) => is_ascii s
  | Some (VList _) => false
  | _ => true
  end = true →
  ∃ b, regex_matches (Lit <$> String.list_ascii_of_string q) (doc !! field) = Some b
       ∧ (b = true ↔ field_contains q field doc).
Proof.
  intros Hq Hf. unfold field_contains.
  destruct (doc !! field) as [v|]; simpl.
  2:{ exists false. split; [done|]. split; [done|]. by intros (? & ? & _). }
  destruct v; try done;
    try (exists false; split; [done|]; split; [done|]; by intros (? & ? & _)).
  unfold search_text. rewrite Hf. eexists. split; [done|].
  rewrite (search_lit q s Hq Hf). split.
  - intros Hc. by exists s.
  - by intros (? & [= <-] & ?).
Qed.

(** The query that [list_products] builds for a plain search text selects
    the documents whose title or description contains it. *)
Lemma matches_text_query q doc :
  plain q → listable doc = true →
  ∃ b, matches_all [Or [Regex "title" q "i"; Regex "description" q "i"]] doc = Some b
       ∧ (b = true ↔ field_contains q "title" doc ∨ field_contains q "description" doc).
Proof.
  intros Hq Hdoc. unfold listable in Hdoc.
  apply andb_true_iff in Hdoc as [Hdoc Hdesc]. apply andb_true_iff in Hdoc as [_ Htitle].
  pose proof (plain_ascii q Hq) as Ha.
  destruct (regex_matches_text q doc "title" Ha) as (bt & Hbt & Ht).
  { by destruct (doc !! "title") as [[]|]. }
  destruct (regex_matches_text q doc "description" Ha Hdesc) as (bd & Hbd & Hd).
  simpl. rewrite (compile_plain q Hq). cbn [mbind option_bind].
  rewrite Hbt, Hbd. cbn [mbind option_bind].
  eexists. split; [reflexivity|].
  rewrite andb_true_r, orb_false_r, orb_true_iff. by rewrite Ht, Hd.
Qed.
End search.

(** *** What seeding preserves *)

Section shapes.
Implicit Types (clk : Clock) (d : Database) (doc : Doc).

Lemma with_id_lookup_ne n doc k : k ≠ "_id" → with_id n doc !! k = doc !! k.
Proof.
  intros Hk. unfold with_id. destruct (doc !! "_id"); [done|].
  by rewrite lookup_insert_ne.
Qed.

Lemma dated_with_id n doc : dated (with_id n doc) = dated doc.
Proof. unfold dated, date_key. by rewrite with_id_lookup_ne. Qed.

Lemma listable_with_id n doc : listable (with_id n doc) = listable doc.
Proof. unfold listable. by rewrite dated_with_id, !with_id_lookup_ne. Qed.

Lemma text_category_with_id n doc : text_category (with_id n doc) = text_category doc.
Proof. unfold text_category, text_values. by rewrite !with_id_lookup_ne. Qed.

Lemma Forall_assign_ids (P : Doc → bool) docs :
  (∀ n doc, P (with_id n doc) = P doc) →
  Forall (λ doc, P doc = true) docs →
  ∀ n, Forall (λ doc, P doc = true) (assign_ids n docs).
Proof.
  intros HP. induction 1 as [|doc docs Hdoc _ IH]; intros n; simpl; constructor;
    [by rewrite HP|apply IH].
Qed.

(** The sample titles and descriptions are ASCII text. *)
Lemma sample_texts :
  Forall (λ p, is_ascii (Sample.title p) && is_ascii (Sample.description p) = true)
         SAMPLE_PRODUCTS.
Proof. repeat constructor. Qed.

Lemma seed_docs_dated clk : Forall (λ doc, dated doc = true) (seed_docs clk).
Proof.
  unfold seed_docs. apply Forall_imap_r. intros k p _.
  unfold dated, date_key. by simplify_map_eq.
Qed.

Lemma seed_docs_listable clk : Forall (λ doc, listable doc = true) (seed_docs clk).
Proof.
  unfold seed_docs. apply Forall_imap_r. intros k p Hp.
  pose proof sample_texts as Ht. rewrite Forall_forall in Ht.
  specialize (Ht p Hp). apply andb_true_iff in Ht as [Ht Hd].
  unfold listable, dated, date_key, Sample.copy. simplify_map_eq.
  by rewrite Ht, Hd.
Qed.

Lemma seed_docs_text_category clk :
  Forall (λ doc, text_category doc = true) (seed_docs clk).
Proof.
  unfold seed_docs. apply Forall_imap_r. intros k p _.
  unfold text_category, text_values, Sample.copy. by simplify_map_eq.
Qed.

(** A property of every sample and of every stored product holds of every
    product after the seed step. *)
Lemma ensure_seed_data_Forall (P : Doc → bool) clk d d' :
  (∀ n doc, P (with_id n doc) = P doc) →
  Forall (λ doc, P doc = true) (seed_docs clk) →
  Forall (λ doc, P doc = true) (coll d "product") →
  ensure_seed_data clk (Some d) = Some d' →
  Forall (λ doc, P doc = true) (coll d' "product").
Proof.
  intros HP Hseed Hd.
  destruct (decide (coll d "product" = [])) as [He|Hne].
  - rewrite ensure_seed_data_empty by done. intros [= <-].
    rewrite coll_insert_many, He, app_nil_l. by apply Forall_assign_ids.
  - rewrite ensure_seed_data_nonempty by done. by intros [= <-].
Qed.
End shapes.

(** *** Product search *)

(** C7, as stated, fails: the search text is handed to the store as a
    regular expression.  The text [.] matches any character, so a product
    whose title and description hold no dot is returned. *)
Lemma list_products_dot_matches_all :
  list_products clock0 (Some (db_with desk_lamp)) None (Some ".")
  = Some (Returns [serialized desk_lamp], Some (db_with desk_lamp))
  ∧ ¬ (field_contains "." "title" desk_lamp ∨ field_contains "." "description" desk_lamp).
Proof.
  split; [reflexivity|].
  intros [(s & Hs & _ & _ & Hc)|(s & Hs & _ & _ & Hc)]; injection Hs as <-;
    apply search_substring in Hc; discriminate.
Qed.

(** C7, amended. When the search text is made of ASCII characters none of
    which a regular expression reads specially, and every stored product
    has a [created_at] date, a title that is ASCII text and a description
    that is ASCII text or no text at all (as the seed loader writes them),
    a product listing with that text and no category returns exactly the
    products present after the seed step, in transport form, whose title or
    description contains the text, the case of the letters A to Z aside. *)
Theorem list_products_search (clk : Clock) (d : Database) (q : string) :
  plain q →
  Forall (λ doc, listable doc = true) (coll d "product") →
  ∃ d' items,
    ensure_seed_data clk (Some d) = Some d'
    ∧ list_products clk (Some d) None (Some q) = Some (Returns items, Some d')
    ∧ ∀ x, x ∈ items ↔
        ∃ doc, doc ∈ coll d' "product" ∧ x = serialized doc
               ∧ (field_contains q "title" doc ∨ field_contains q "description" doc).
Proof.
  intros Hq Hd. destruct (ensure_seed_data_some clk d) as [d' Hd'].
  assert (Hl : Forall (λ doc, listable doc = true) (coll d' "product")).
  { eapply ensure_seed_data_Forall; eauto using listable_with_id, seed_docs_listable. }
  assert (Hdated : ∀ docs, (∀ doc, doc ∈ docs → doc ∈ coll d' "product") →
            Forall (λ doc, is_Some (date_key "created_at" doc)) docs).
  { intros docs Hsub. apply Forall_forall. intros doc Hin.
    rewrite Forall_forall in Hl. specialize (Hl doc (Hsub doc Hin)).
    unfold listable in Hl. apply andb_true_iff in Hl as [Hl _].
    apply andb_true_iff in Hl as [Hl _]. by apply bool_decide_eq_true in Hl. }
  exists d'. rewrite list_products_unfold, Hd'. unfold find.
  change (ascii_parameter None) with true.
  change (category_query (category_filter None)) with (@nil Filter).
  rewrite app_nil_l. cbv iota.
  destruct q as [|c q].
  - (* no text: no filter *)
    change (text_query (text_filter (Some ""))) with (@nil Filter).
    rewrite select_all. cbn [mbind option_bind].
    rewrite sort_desc_sorted by (by apply Hdated).
    eexists. split; [done|]. split; [done|]. intros x.
    rewrite list_elem_of_fmap. split.
    + intros (doc & -> & Hin). exists doc.
      rewrite merge_sort_Permutation in Hin. split; [done|]. split; [done|].
      left. rewrite Forall_forall in Hl. specialize (Hl doc Hin).
      unfold listable in Hl. apply andb_true_iff in Hl as [Hl _].
      apply andb_true_iff in Hl as [_ Ht].
      destruct (doc !! "title") as [[]|] eqn:Htitle; try done.
      exists s. split; [done|]. split; [done|]. split; [done|].
      by exists "", (lower s).
    + intros (doc & Hin & -> & _). exists doc. split; [done|].
      by rewrite merge_sort_Permutation.
  - set (text := String c q) in *.
    change (text_query (text_filter (Some text)))
      with [Or [Regex "title" text "i"; Regex "description" text "i"]].
    set (query := [Or [Regex "title" text "i"; Regex "description" text "i"]]).
    assert (Hm : ∀ doc, doc ∈ coll d' "product" →
              ∃ b, matches_all query doc = Some b
                   ∧ (b = true ↔ field_contains text "title" doc
                                 ∨ field_contains text "description" doc)).
    { intros doc Hin. apply matches_text_query; [done|].
      rewrite Forall_forall in Hl. by apply Hl. }
    destruct (select_defined query (coll d' "product")) as [found Hfound].
    { apply Forall_forall. intros doc Hin. destruct (Hm doc Hin) as (b & Hb & _).
      by exists b. }
    rewrite Hfound. cbn [mbind option_bind].
    pose proof (select_elem_of _ _ _ Hfound) as Hsel.
    rewrite sort_desc_sorted by (apply Hdated; intros doc Hin; by apply Hsel in Hin as [? _]).
    eexists. split; [done|]. split; [done|]. intros x.
    rewrite list_elem_of_fmap. split.
    + intros (doc & -> & Hin). exists doc.
      rewrite merge_sort_Permutation in Hin. apply Hsel in Hin as [Hin Hmatch].
      split; [done|]. split; [done|].
      destruct (Hm doc Hin) as (b & Hb & Hiff). apply Hiff. congruence.
    + intros (doc & Hin & -> & Hc). exists doc. split; [done|].
      rewrite merge_sort_Permutation. apply Hsel. split; [done|].
      destruct (Hm doc Hin) as (b & Hb & Hiff). apply Hiff in Hc. congruence.
Qed.

Lemma list_products_search_witness :
  ∃ d' items,
    ensure_seed_data clock0 (Some fresh_db) = Some d'
    ∧ list_products clock0 (Some fresh_db) None (Some "monitor")
      = Some (Returns items, Some d')
    ∧ ∀ x, x ∈ items ↔
        ∃ doc, doc ∈ coll d' "product" ∧ x = serialized doc
               ∧ (field_contains "monitor" "title" doc
                  ∨ field_contains "monitor" "description" doc).
Proof.
  apply (list_products_search clock0 fresh_db "monitor").
  - unfold plain. simpl. repeat constructor.
  - constructor.
Defined.

(** The titles a search for [MONITOR] finds in the sample catalogue, newest
    first. *)
Example list_products_monitor :
  (λ r, match r.1 with
        | Returns items => (λ d : Doc, d !! "title") <$> items
        | Raises _ => []
        end) <$> list_products clock0 (Some fresh_db) None (Some "MONITOR")
  = Some [Some (VStr "Streamer Pro Rig"); Some (VStr "Minimal Zen Desk");
          Some (VStr "Deep Work Productivity"); Some (VStr "Retro Gamer Setup")].
Proof. vm_compute. reflexivity. Qed.

(** *** Category listing *)

Section categories.
Implicit Types (clk : Clock) (d : Database) (docs : list Doc).

Lemma str_le_total : Total str_le.
Proof. intros a b. apply String.leb_total. Qed.

Lemma elem_of_concat {A} (x : A) (ls : list (list A)) :
  x ∈ concat ls ↔ ∃ l, l ∈ ls ∧ x ∈ l.
Proof.
  induction ls as [|l ls IH]; simpl.
  - split; [by intros ?%elem_of_nil|by intros (? & ?%elem_of_nil & _)].
  - rewrite elem_of_app, IH. split.
    + intros [Hx|(l' & Hl' & Hx)]; [exists l|exists l']; split; auto; by constructor.
    + intros (l' & Hl' & Hx). apply elem_of_cons in Hl' as [->|Hl']; eauto.
Qed.

(** [distinct] yields each stored value once, and nothing else. *)
Lemma distinct_spec d name field cats :
  distinct d name field = Some cats →
  NoDup cats
  ∧ ∀ c, c ∈ cats ↔
      ∃ doc vs, doc ∈ coll d name ∧ text_values field doc = Some vs ∧ c ∈ vs.
Proof.
  unfold distinct. destruct (mapM _ _) as [vss|] eqn:Hm; [|done].
  simpl. intros [= <-]. split; [apply NoDup_remove_dups|].
  intros c. rewrite elem_of_remove_dups, elem_of_concat.
  apply mapM_Some_1 in Hm. split.
  - intros (vs & Hvs & Hc). apply list_elem_of_lookup in Hvs as [i Hi].
    destruct (Forall2_lookup_r _ _ _ _ _ Hm Hi) as (doc & Hdoc & Htv).
    exists doc, vs. split; [|done]. apply list_elem_of_lookup. by exists i.
  - intros (doc & vs & Hdoc & Htv & Hc). apply list_elem_of_lookup in Hdoc as [i Hi].
    destruct (Forall2_lookup_l _ _ _ _ _ Hm Hi) as (vs' & Hvs' & Htv').
    exists vs'. split; [apply list_elem_of_lookup; by exists i|]. congruence.
Qed.

Lemma distinct_defined d name field :
  Forall (λ doc, is_Some (text_values field doc)) (coll d name) →
  is_Some (distinct d name field).
Proof.
  intros Hall. unfold distinct.
  destruct (mapM_is_Some_2 (text_values field) (coll d name) Hall) as [vss ->].
  by eexists.
Qed.
End categories.

(** C5, as stated, fails: ["all"] is put in front without a look at the
    stored categories, so a product filed under ["all"] makes it appear
    twice. *)
Lemma list_categories_all_twice :
  list_categories clock0 (Some (db_with catch_all))
  = Some (Returns ["all"; "all"], Some (db_with catch_all))
  ∧ ¬ NoDup ["all"; "all"].
Proof.
  split; [reflexivity|]. intros Hnd. apply NoDup_cons in Hnd as [Hin _].
  apply Hin. by left.
Qed.

(** C5, amended. The category listing returns ["all"] followed by the
    categories of the stored products (those present after the seed step),
    each once and in sorted order.  The whole list is free of duplicates
    exactly when no stored product has the category ["all"]. *)
Theorem list_categories_contract (clk : Clock) (d : Database) :
  Forall (λ doc, text_category doc = true) (coll d "product") →
  ∃ d' cats,
    ensure_seed_data clk (Some d) = Some d'
    ∧ list_categories clk (Some d) = Some (Returns ("all" :: cats), Some d')
    ∧ Sorted str_le cats
    ∧ NoDup cats
    ∧ (∀ c, c ∈ cats ↔ stored_category (coll d' "product") c)
    ∧ (NoDup ("all" :: cats) ↔ ¬ stored_category (coll d' "product") "all").
Proof.
  intros Hd. destruct (ensure_seed_data_some clk d) as [d' Hd'].
  assert (Ht : Forall (λ doc, text_category doc = true) (coll d' "product")).
  { eapply ensure_seed_data_Forall;
      eauto using text_category_with_id, seed_docs_text_category. }
  destruct (distinct_defined d' "product" "category") as [cats Hcats].
  { eapply Forall_impl; [exact Ht|]. intros doc Hdoc.
    by apply bool_decide_eq_true in Hdoc. }
  destruct (distinct_spec _ _ _ _ Hcats) as [Hnd Hin].
  exists d', (merge_sort str_le cats).
  unfold list_categories. rewrite Hd', Hcats. cbn [mbind option_bind].
  assert (Hmem : ∀ c, c ∈ merge_sort str_le cats
                      ↔ stored_category (coll d' "product") c).
  { intros c. by rewrite merge_sort_Permutation, Hin. }
  split; [done|]. split; [done|].
  split; [apply Sorted_merge_sort, str_le_total|].
  split; [by rewrite merge_sort_Permutation|]. split; [done|].
  rewrite NoDup_cons, Hmem, merge_sort_Permutation. tauto.
Qed.

Lemma list_categories_contract_witness :
  ∃ d' cats,
    ensure_seed_data clock0 (Some fresh_db) = Some d'
    ∧ list_categories clock0 (Some fresh_db) = Some (Returns ("all" :: cats), Some d')
    ∧ Sorted str_le cats
    ∧ NoDup cats
    ∧ (∀ c, c ∈ cats ↔ stored_category (coll d' "product") c)
    ∧ (NoDup ("all" :: cats) ↔ ¬ stored_category (coll d' "product") "all").
Proof. apply (list_categories_contract clock0 fresh_db). constructor. Defined.

(** The categories of the sample catalogue. *)
Example list_categories_seeded :
  fst <$> list_categories clock0 (Some fresh_db)
  = Some (Returns ["all"; "creator"; "gaming"; "minimal"; "productivity"; "streaming"]).
Proof. vm_compute. reflexivity. Qed.

(* ===================================================================== *)
(** ** Further properties                                                 *)
(* ===================================================================== *)

(** *** [serialize_doc]: what a second pass, the field names and nested
    values show *)

Section transport.
Implicit Types (d : Doc) (k : string) (v : Value).

Lemma to_text_idemp v : to_text (to_text v) = to_text v.
Proof. by destruct v. Qed.

Lemma to_text_not_ObjectId v o : to_text v = VObjectId o → v = VObjectId o.
Proof. by destruct v. Qed.

Lemma to_transport_no_ObjectId d o : to_transport d !! "_id" ≠ Some (VObjectId o).
Proof.
  unfold to_transport. rewrite lookup_fmap.
  destruct (d !! "_id") as [v|] eqn:Hid.
  - destruct v; rewrite ?lookup_delete_eq, ?Hid; done.
  - by rewrite Hid.
Qed.

Lemma to_transport_idemp d : to_transport (to_transport d) = to_transport d.
Proof.
  unfold to_transport at 1.
  destruct (to_transport d !! "_id") as [[]|] eqn:Hid;
    try (by destruct (to_transport_no_ObjectId d o));
    unfold to_transport; rewrite <- map_fmap_compose;
    apply map_fmap_ext; intros; apply to_text_idemp.
Qed.
End transport.

(** X1. Serialising a document that is already in transport form changes
    nothing: a second pass of [serialize_doc] returns the same items. *)
Theorem serialized_idempotent (d : Doc) :
  serialized (serialized d) = serialized d.
Proof. rewrite !serialized_to_transport. apply to_transport_idemp. Qed.

(** X2. The field names of the result are those of the argument, except
    that ["_id"] gives way to ["id"] when it holds an [ObjectId]: no other
    field is dropped and no other field is added. *)
Theorem serialized_fields (d : Doc) :
  dom (serialized d)
  = match d !! "_id" with
    | Some (VObjectId _) => ({["id"]} ∪ dom d) ∖ {["_id"]}
    | _ => dom d
    end.
Proof.
  rewrite serialized_to_transport. unfold to_transport. rewrite dom_fmap_L.
  destruct (d !! "_id") as [[]|]; try done.
  by rewrite dom_delete_L, dom_insert_L.
Qed.

(** X3. The conversion is one level deep.  No field of the result holds a
    date, but an array or a nested document is handed over as it is, with
    the dates it may hold. *)
Theorem serialized_shallow (d : Doc) :
  (∀ k v, serialized d !! k = Some v →
     (∀ t, v ≠ VDatetime t) ∧ (∀ x, v ≠ VDate x))
  ∧ (∀ k l, k ≠ "id" → d !! k = Some (VList l) → serialized d !! k = Some (VList l))
  ∧ (∀ k m, k ≠ "id" → d !! k = Some (VDict m) → serialized d !! k = Some (VDict m)).
Proof.
  rewrite serialized_to_transport. unfold to_transport.
  assert (Hkeep : ∀ k v, k ≠ "id" → d !! k = Some v → (∀ o, v ≠ VObjectId o) →
            (to_text <$> match d !! "_id" with
                         | Some (VObjectId o) =>
                             delete "_id" (<["id" := VStr (str_ObjectId o)]> d)
                         | _ => d
                         end) !! k = Some (to_text v)).
  { intros k v Hk Hv Hno. rewrite lookup_fmap.
    destruct (d !! "_id") as [[]|] eqn:Hid; rewrite ?Hv; try done.
    rewrite lookup_delete_ne, lookup_insert_ne, Hv; [done|done|].
    intros <-. rewrite Hid in Hv. injection Hv as <-. by destruct (Hno o). }
  split; [|split].
  - intros k v. rewrite lookup_fmap. intros Hv.
    apply fmap_Some in Hv as (v0 & _ & ->). by destruct v0.
  - intros k l Hk Hl. by rewrite (Hkeep k (VList l)).
  - intros k m Hk Hm. by rewrite (Hkeep k (VDict m)).
Qed.

(** A date inside an array or a nested document stays a date. *)
Example serialized_nested_dates : serialized nested_dates = nested_dates.
Proof. reflexivity. Qed.

(** *** [PyObjectId.validate] and [str] *)

Section object_ids.
Import PyObjectId.
Implicit Types (s : string) (n d : N) (w k : nat) (bs : list N).

Lemma length_append s : ∀ s', String.length (s +:+ s') = String.length s + String.length s'.
Proof. induction s as [|c s IH]; intros s'; simpl; [done|]. by rewrite IH. Qed.

Lemma length_hex_fill w : ∀ n, String.length (hex_fill w n) = w.
Proof.
  induction w as [|w IH]; intros n; simpl; [done|].
  rewrite length_append, IH. simpl. lia.
Qed.

Lemma hex_digit_spec d :
  (d < 16)%N → hex_value (hex_digit d) = Some d ∧ whitespace (hex_digit d) = false.
Proof.
  intros Hd. destruct d as [|p]; [done|].
  do 4 (destruct p as [p|p|]; try lia; try done).
Qed.



(** The first digit of a number written on [S w] digits. *)
Lemma hex_fill_S w : ∀ n,
  hex_fill (S w) n
  = String (hex_digit ((n / 16 ^ N.of_nat w) mod 16)) (hex_fill w (n mod 16 ^ N.of_nat w)).
Proof.
  induction w as [|w IH]; intros n.
  - simpl. by rewrite N.div_1_r.
  - change (hex_fill (S (S w)) n)
      with (hex_fill (S w) (n / 16) +:+ String (hex_digit (n mod 16)) "").
    rewrite IH. cbn [String.append].
    rewrite N.Div0.div_div, Nat2N.inj_succ, N.pow_succ_r'. f_equal.
    change (hex_fill (S w) (n mod (16 * 16 ^ N.of_nat w)))
      with (hex_fill w (n mod (16 * 16 ^ N.of_nat w) / 16)
            +:+ String (hex_digit (n mod (16 * 16 ^ N.of_nat w) mod 16)) "").
    assert (Hpos : (0 < 16 ^ N.of_nat w)%N) by (apply N.neq_0_lt_0, N.pow_nonzero; lia).
    rewrite (N.Div0.mod_mul_r n 16).
    replace ((n mod 16 + 16 * ((n / 16) mod 16 ^ N.of_nat w)) / 16)%N
      with ((n / 16) mod 16 ^ N.of_nat w)%N.
    2:{ rewrite N.add_comm, N.mul_comm, N.div_add_l by lia.
        rewrite (N.div_small (n mod 16) 16); [lia|]. apply N.mod_lt. lia. }
    replace ((n mod 16 + 16 * ((n / 16) mod 16 ^ N.of_nat w)) mod 16)%N
      with (n mod 16)%N; [done|].
    rewrite (N.mul_comm 16), N.Div0.mod_add, N.Div0.mod_mod. done.
Qed.

Lemma pow_16_256 k : (16 ^ N.of_nat (2 * k) = 256 ^ N.of_nat k)%N.
Proof.
  replace (N.of_nat (2 * k)) with (2 * N.of_nat k)%N by lia.
  by rewrite N.pow_mul_r.
Qed.

(** The two leading digits of a number written on [2 + w] digits, and the
    digits after them. *)
Lemma hex_fill_SS w n :
  let p := (16 ^ N.of_nat w)%N in
  hex_fill (S (S w)) n
  = String (hex_digit ((n / (16 * p)) mod 16))
      (String (hex_digit ((n / p) mod 16)) (hex_fill w (n mod p))).
Proof.
  intros p. assert (Hp : (0 < p)%N) by (apply N.neq_0_lt_0, N.pow_nonzero; lia).
  rewrite hex_fill_S, (hex_fill_S w).
  rewrite Nat2N.inj_succ, N.pow_succ_r'. fold p.
  assert (Hdiv : ((n mod (16 * p)) / p = (n / p) mod 16)%N).
  { rewrite (N.mul_comm 16 p), N.Div0.mod_mul_r.
    rewrite N.add_comm, N.mul_comm, N.div_add_l by lia.
    rewrite (N.div_small (n mod p) p) by (apply N.mod_lt; lia). lia. }
  assert (Hmod : ((n mod (16 * p)) mod p = n mod p)%N).
  { rewrite (N.mul_comm 16 p), N.Div0.mod_mul_r.
    rewrite N.mul_comm, N.Div0.mod_add. by rewrite N.Div0.mod_mod. }
  by rewrite Hdiv, Hmod, N.Div0.mod_mod.
Qed.

(** The text of a number on [2 * k] digits is read as its [k] low bytes. *)
Lemma fromhex_hex_fill k : ∀ n,
  ∃ bs, fromhex (hex_fill (2 * k) n) = Some bs
        ∧ length bs = k
        ∧ from_bytes bs = (n mod 256 ^ N.of_nat k)%N.
Proof.
  induction k as [|k IH]; intros n.
  - exists []. split; [done|]. split; [done|]. simpl. by rewrite N.mod_1_r.
  - replace (2 * S k) with (S (S (2 * k))) by lia.
    rewrite hex_fill_SS. set (p := (16 ^ N.of_nat (2 * k))%N).
    assert (Hp : (0 < p)%N) by (apply N.neq_0_lt_0, N.pow_nonzero; lia).
    destruct (IH (n mod p)%N) as (bs & Hbs & Hlen & Hval).
    destruct (hex_digit_spec ((n / (16 * p)) mod 16)) as [Htop Hws];
      [apply N.mod_lt; lia|].
    destruct (hex_digit_spec ((n / p) mod 16)) as [Hbot _]; [apply N.mod_lt; lia|].
    cbn [fromhex]. rewrite Hws, Htop, Hbot, Hbs. cbn [mbind option_bind].
    eexists. split; [done|]. split; [simpl; by rewrite Hlen|].
    cbn [from_bytes]. rewrite Hval, Hlen, <- pow_16_256. fold p.
    rewrite N.Div0.mod_mod, Nat2N.inj_succ, N.pow_succ_r', <- pow_16_256. fold p.
    replace (256 * p)%N with (p * 16 * 16)%N by lia.
    rewrite (N.Div0.mod_mul_r n (p * 16) 16), (N.Div0.mod_mul_r n p 16).
    replace (n / (p * 16))%N with (n / (16 * p))%N by (f_equal; lia). lia.
Qed.

End object_ids.

(** X4. The text of an identifier is read back as that identifier:
    [PyObjectId.validate(str(oid))] returns [oid], for every twelve-byte
    identifier. *)
Theorem validate_str_ObjectId (o : ObjectId) :
  (oid_value o < 2 ^ 96)%N →
  PyObjectId.validate (VStr (str_ObjectId o)) = Some (PyObjectId.Valid o).
Proof.
  intros Ho. unfold PyObjectId.validate, PyObjectId.of_str, str_ObjectId.
  rewrite length_hex_fill. change (24 =? 24)%nat with true. cbv iota.
  destruct (fromhex_hex_fill 12 (oid_value o)) as (bs & Hbs & Hlen & Hval).
  change (2 * 12) with 24 in Hbs. rewrite Hbs, Hlen.
  change (12 =? 12)%nat with true. cbv iota. rewrite Hval.
  change (256 ^ N.of_nat 12)%N with (2 ^ 96)%N.
  rewrite N.mod_small by done. by destruct o.
Qed.

Lemma validate_str_ObjectId_witness :
  PyObjectId.validate (VStr (str_ObjectId (mkObjectId 255)))
  = Some (PyObjectId.Valid (mkObjectId 255)).
Proof. apply (validate_str_ObjectId (mkObjectId 255)). reflexivity. Defined.


(** Eleven bytes and two blanks make 24 characters: the string is taken,
    and the identifier has eleven bytes. *)
Example validate_short :
  PyObjectId.validate (VStr "00 000000000000000000ff ")
  = Some (PyObjectId.Short [0; 0; 0; 0; 0; 0; 0; 0; 0; 0; 255]%N).
Proof. reflexivity. Qed.

(** *** The seed loader: validation, repetition, and what it leaves alone *)

(** X8. The seed loop is all or nothing.  On a catalogue whose prices are
    all at least 0 it returns one stamped document per entry, in order; if
    any entry has a price that is not, it raises a validation error and
    returns no batch, whatever entries came before it. *)
Theorem seed_loop_all_or_nothing (clk : Clock) (k : nat)
    (ps : list Sample.entry) (acc : list Doc) :
  (Forall (λ p, PrimFloat.leb 0 (Sample.price p) = true) ps →
     ∃ batch, seed_loop clk k ps acc = Returns (acc ++ batch)
              ∧ Forall2 (λ p doc, Sample.copy p ⊆ doc) ps batch)
  ∧ (Exists (λ p, PrimFloat.leb 0 (Sample.price p) = false) ps →
       ∃ msg, seed_loop clk k ps acc = Raises (ValidationError "price" msg)).
Proof.
  split.
  - intros Hall. eexists. split; [by apply seed_loop_valid|].
    apply Forall2_imap_r. intros i p.
    etrans; [|apply insert_subseteq]; [apply insert_subseteq|];
      unfold Sample.copy; by simplify_map_eq.
  - intros Hbad. revert k acc.
    induction ps as [|p ps IH]; intros k acc; [by apply Exists_nil in Hbad|].
    cbn [seed_loop]. unfold schemas.Product.init.
    destruct (PrimFloat.leb 0 (Sample.price p)) eqn:Hp.
    + cbn [mbind Result_bind]. apply IH.
      apply Exists_cons in Hbad as [Hbad|Hbad]; [congruence|done].
    + by eexists.
Qed.

Example seed_loop_bad_catalogue :
  seed_loop clock0 0 bad_catalogue []
  = Raises (ValidationError "price" "Input should be greater than or equal to 0").
Proof. reflexivity. Qed.

Section seed_frame.
Implicit Types (clk : Clock) (d : Database).

Lemma coll_insert_many_ne name name' docs d :
  name ≠ name' → coll (insert_many name docs d) name' = coll d name'.
Proof. intros Hne. unfold coll. simpl. by rewrite lookup_insert_ne. Qed.

Lemma seeded_nonempty clk d : coll (insert_many "product" (seed_docs clk) d) "product" ≠ [].
Proof.
  rewrite coll_insert_many. intros He. apply (f_equal length) in He.
  rewrite length_app, length_assign_ids in He. unfold seed_docs in He.
  rewrite length_imap in He. simpl in He. lia.
Qed.

Lemma list_categories_db clk db r db' :
  list_categories clk db = Some (r, db') → db' = ensure_seed_data clk db.
Proof.
  unfold list_categories. destruct (ensure_seed_data clk db); [|by intros [= _ <-]].
  destruct (distinct _ _ _); simpl; [|done]. by intros [= _ <-].
Qed.
End seed_frame.

(** X9. Seeding twice is seeding once: after the seed step has run, the
    product collection holds a document, so a second run, at any later
    time, changes nothing.  This holds for every store, configured or
    not. *)
Theorem ensure_seed_data_idempotent (clk1 clk2 : Clock) (db : option Database) :
  ensure_seed_data clk2 (ensure_seed_data clk1 db) = ensure_seed_data clk1 db.
Proof.
  destruct db as [d|]; [|done].
  destruct (decide (coll d "product" = [])) as [He|Hne].
  - rewrite ensure_seed_data_empty by done.
    apply ensure_seed_data_nonempty, seeded_nonempty.
  - rewrite !ensure_seed_data_nonempty by done. done.
Qed.

(** X10. A listing request writes nothing but the sample products.  The
    database it leaves is the one the seed step leaves; there the products
    that were stored are still stored, first and unchanged, with documents
    added only if there were none; and every other collection and the name
    of the database are as before. *)
Theorem listing_leaves_the_rest (clk : Clock) (d : Database) :
  ∃ d' added,
    ensure_seed_data clk (Some d) = Some d'
    ∧ coll d' "product" = coll d "product" ++ added
    ∧ (coll d "product" ≠ [] → added = [])
    ∧ (∀ name, name ≠ "product" → coll d' name = coll d name)
    ∧ db_name d' = db_name d
    ∧ (∀ category q r db',
         list_products clk (Some d) category q = Some (r, db') → db' = Some d')
    ∧ (∀ r db', list_categories clk (Some d) = Some (r, db') → db' = Some d').
Proof.
  destruct (decide (coll d "product" = [])) as [He|Hne].
  - exists (insert_many "product" (seed_docs clk) d),
           (assign_ids (next_oid d) (seed_docs clk)).
    pose proof (ensure_seed_data_empty clk d He) as Hseed.
    split; [done|]. split; [apply coll_insert_many|]. split; [done|].
    split; [intros name Hname; by apply coll_insert_many_ne|]. split; [done|].
    split.
    + intros category q r db' Hl. apply list_products_db in Hl. congruence.
    + intros r db' Hl. apply list_categories_db in Hl. congruence.
  - exists d, []. pose proof (ensure_seed_data_nonempty clk d Hne) as Hseed.
    split; [done|]. split; [by rewrite app_nil_r|]. repeat split; try done.
    + intros category q r db' Hl. apply list_products_db in Hl. congruence.
    + intros r db' Hl. apply list_categories_db in Hl. congruence.
Qed.

(** *** Product listing: the filters together, the order, the letter case *)

Section listing.
Implicit Types (clk : Clock) (d : Database) (doc : Doc) (docs : list Doc).

Lemma field_matches_category c doc :
  field_matches (String.eqb c) (doc !! "category") = true ↔ has_category c doc.
Proof.
  unfold has_category. destruct (doc !! "category") as [v|]; simpl.
  2:{ split; [done|]. by intros [?|(? & ? & _)]. }
  destruct v; simpl; try (split; [done|]; by intros [?|(? & ? & _)]).
  - rewrite String.eqb_eq. split.
    + intros ->. by left.
    + intros [[= ->]|(? & ? & _)]; done.
  - rewrite existsb_exists. split.
    + intros (x & Hx & Hm). right. exists l. split; [done|].
      destruct x; try done. apply String.eqb_eq in Hm as ->.
      by apply list_elem_of_In.
    + intros [?|(l' & [= <-] & Hin)]; [done|].
      exists (VStr c). split; [by apply list_elem_of_In|]. simpl. apply String.eqb_refl.
Qed.

Lemma select_sublist query docs : ∀ found,
  select query docs = Some found → sublist found docs.
Proof.
  induction docs as [|doc docs IH]; simpl; intros found.
  - by intros [= <-].
  - destruct (matches_all query doc) as [b|]; [|done]. simpl.
    destruct (select query docs) as [rest|]; [|done]. simpl.
    intros [= <-]. specialize (IH rest eq_refl).
    destruct b; by constructor.
Qed.

Lemma newer_first_trans field : Transitive (newer_first field).
Proof. unfold newer_first. intros a b c. lia. Qed.

Lemma newer_first_total field : Total (newer_first field).
Proof. unfold newer_first. intros a b. lia. Qed.

Lemma StronglySorted_Forall_impl {A} (R R' : relation A) (P : A → Prop) (l : list A) :
  (∀ a b, P a → P b → R a b → R' a b) →
  Forall P l → StronglySorted R l → StronglySorted R' l.
Proof.
  intros HR HP. induction 1 as [|a l Hl IH Ha]; [constructor|].
  apply Forall_cons in HP as [HPa HPl]. constructor; [by apply IH|].
  rewrite Forall_forall in Ha, HPl |- *. intros b Hb. apply HR; auto.
Qed.

Lemma to_transport_lookup_ne (d0 : Doc) k :
  k ≠ "_id" → k ≠ "id" → to_transport d0 !! k = to_text <$> d0 !! k.
Proof.
  intros H1 H2. unfold to_transport. rewrite lookup_fmap.
  destruct (d0 !! "_id") as [[]|]; try done.
  by rewrite lookup_delete_ne, lookup_insert_ne.
Qed.

Lemma lower_ascii_idemp c : lower_ascii (lower_ascii c) = lower_ascii c.
Proof. by destruct c as [[] [] [] [] [] [] [] []]. Qed.

Lemma lower_idemp s : lower (lower s) = lower s.
Proof. induction s as [|c s IH]; simpl; [done|]. by rewrite lower_ascii_idemp, IH. Qed.

Lemma has_category_serialized c doc : has_category c doc → has_category c (serialized doc).
Proof.
  rewrite serialized_to_transport. unfold has_category.
  rewrite to_transport_lookup_ne by done.
  intros [->|(l & -> & Hl)]; [by left|right; by exists l].
Qed.

(** What the query of a listing selects, filter by filter. *)
Lemma matches_filters fc ft doc :
  (∀ text, ft = Some text → plain text ∧ listable doc = true) →
  ∃ b, matches_all (category_query fc ++ text_query ft) doc = Some b
       ∧ (b = true ↔
            (∀ c, fc = Some c → has_category c doc)
            ∧ (∀ text, ft = Some text →
                 field_contains text "title" doc ∨ field_contains text "description" doc)).
Proof.
  intros Hft.
  assert (Htext : ∃ b, matches_all (text_query ft) doc = Some b
            ∧ (b = true ↔ ∀ text, ft = Some text →
                 field_contains text "title" doc ∨ field_contains text "description" doc)).
  { destruct ft as [text|].
    - destruct (Hft text eq_refl) as [Hp Hl].
      destruct (matches_text_query text doc Hp Hl) as (b & Hb & Hiff).
      exists b. split; [done|]. rewrite Hiff. split; [by intros ? ? [= <-]|auto].
    - exists true. split; [done|]. split; [by intros _ ? [=]|done]. }
  destruct Htext as (bt & Hbt & Hiff). destruct fc as [c|]; simpl.
  - rewrite Hbt. simpl. eexists. split; [done|].
    rewrite andb_true_iff, field_matches_category, Hiff. split.
    + intros [Hc Ht]. split; [by intros ? [= <-]|done].
    + intros [Hc Ht]. split; [by apply Hc|done].
  - exists bt. split; [done|]. rewrite Hiff. split; [by split|by intros [_ ?]].
Qed.
End listing.

(** X11. With a category and a search text together, a product listing
    returns exactly the stored products, in transport form, that pass both:
    the category field holds the parameter in lower case (unless the
    parameter is absent, empty or ["all"]), and the title or the
    description contains the text, the case of the letters A to Z aside
    (unless it is absent or empty).  The category is ASCII text; the search
    text is made of ASCII characters none of which a regular expression
    reads specially; every stored product has a [created_at] date, a title
    that is ASCII text and a description that is ASCII text or no text at
    all. *)
Theorem list_products_filters (clk : Clock) (d : Database)
    (category q : option string) :
  ascii_parameter category = true →
  (∀ text, text_filter q = Some text → plain text) →
  Forall (λ doc, listable doc = true) (coll d "product") →
  ∃ d' items,
    ensure_seed_data clk (Some d) = Some d'
    ∧ list_products clk (Some d) category q = Some (Returns items, Some d')
    ∧ ∀ x, x ∈ items ↔
        ∃ doc, doc ∈ coll d' "product" ∧ x = serialized doc
               ∧ (∀ c, category_filter category = Some c → has_category c doc)
               ∧ (∀ text, text_filter q = Some text →
                    field_contains text "title" doc
                    ∨ field_contains text "description" doc).
Proof.
  intros Hcat Hq Hd. destruct (ensure_seed_data_some clk d) as [d' Hd'].
  assert (Hl : Forall (λ doc, listable doc = true) (coll d' "product")).
  { eapply ensure_seed_data_Forall; eauto using listable_with_id, seed_docs_listable. }
  rewrite Forall_forall in Hl.
  set (query := category_query (category_filter category) ++ text_query (text_filter q)).
  assert (Hm : ∀ doc, doc ∈ coll d' "product" →
            ∃ b, matches_all query doc = Some b
                 ∧ (b = true ↔
                      (∀ c, category_filter category = Some c → has_category c doc)
                      ∧ (∀ text, text_filter q = Some text →
                           field_contains text "title" doc
                           ∨ field_contains text "description" doc))).
  { intros doc Hin. apply matches_filters. intros text Ht. split; [by apply Hq|by apply Hl]. }
  destruct (select_defined query (coll d' "product")) as [found Hfound].
  { apply Forall_forall. intros doc Hin. destruct (Hm doc Hin) as (b & Hb & _).
    by exists b. }
  pose proof (select_elem_of _ _ _ Hfound) as Hsel.
  assert (Hsort : sort_desc "created_at" found
                  = Some (merge_sort (newer_first "created_at") found)).
  { apply sort_desc_sorted, Forall_forall. intros doc Hin.
    apply Hsel in Hin as [Hin _]. specialize (Hl doc Hin). unfold listable in Hl.
    apply andb_true_iff in Hl as [Hl _]. apply andb_true_iff in Hl as [Hl _].
    by apply bool_decide_eq_true in Hl. }
  exists d', (map serialized (merge_sort (newer_first "created_at") found)).
  split; [done|]. split.
  { rewrite list_products_unfold, Hd', Hcat. unfold find. fold query.
    rewrite Hfound. cbn [mbind option_bind]. by rewrite Hsort. }
  intros x. rewrite list_elem_of_fmap. split.
  - intros (doc & -> & Hin). exists doc.
    rewrite merge_sort_Permutation in Hin. apply Hsel in Hin as [Hin Hmatch].
    split; [done|]. split; [done|].
    destruct (Hm doc Hin) as (b & Hb & Hiff). apply Hiff. congruence.
  - intros (doc & Hin & -> & Hc). exists doc. split; [done|].
    rewrite merge_sort_Permutation. apply Hsel. split; [done|].
    destruct (Hm doc Hin) as (b & Hb & Hiff). apply Hiff in Hc. congruence.
Qed.

Lemma list_products_filters_witness :
  ∃ d' items,
    ensure_seed_data clock0 (Some fresh_db) = Some d'
    ∧ list_products clock0 (Some fresh_db) (Some "Gaming") (Some "monitor")
      = Some (Returns items, Some d')
    ∧ ∀ x, x ∈ items ↔
        ∃ doc, doc ∈ coll d' "product" ∧ x = serialized doc
               ∧ (∀ c, category_filter (Some "Gaming") = Some c → has_category c doc)
               ∧ (∀ text, text_filter (Some "monitor") = Some text →
                    field_contains text "title" doc
                    ∨ field_contains text "description" doc).
Proof.
  apply (list_products_filters clock0 fresh_db (Some "Gaming") (Some "monitor")).
  - reflexivity.
  - intros text [= <-]. unfold plain. simpl. repeat constructor.
  - constructor.
Defined.

(** X12. Whatever a product listing returns is the transport form of stored
    products, none returned more often than it is stored, ordered from the
    newest to the oldest by [created_at]. *)
Theorem list_products_newest_first (clk : Clock) (db db' : option Database)
    (category q : option string) (items : list Doc) :
  list_products clk db category q = Some (Returns items, db') →
  ∃ d' docs,
    db' = Some d'
    ∧ items = map serialized docs
    ∧ docs ⊆+ coll d' "product"
    ∧ StronglySorted not_older docs.
Proof.
  rewrite list_products_unfold.
  destruct (ensure_seed_data clk db) as [d'|]; [|done].
  destruct (ascii_parameter category); [|done]. unfold find.
  destruct (select _ _) as [found|] eqn:Hfound; [|done]. cbn [mbind option_bind].
  unfold sort_desc. destruct (forallb _ found) eqn:Hall; [|done].
  cbn [mbind option_bind]. intros [= <- <-].
  exists d', (merge_sort (newer_first "created_at") found).
  split; [done|]. split; [done|]. split.
  - rewrite merge_sort_Permutation. by apply sublist_submseteq, (select_sublist _ _ _ Hfound).
  - apply (StronglySorted_Forall_impl (newer_first "created_at") not_older
             (λ doc, is_Some (date_key "created_at" doc))).
    + intros a b [ta Ha] [tb Hb]. unfold newer_first, not_older.
      rewrite Ha, Hb. simpl. intros Hle. by exists ta, tb.
    + rewrite merge_sort_Permutation. apply Forall_forall. intros doc Hin.
      rewrite forallb_forall in Hall. apply list_elem_of_In in Hin.
      specialize (Hall doc Hin). by apply bool_decide_eq_true in Hall.
    + apply StronglySorted_merge_sort;
        [apply newer_first_trans|apply newer_first_total].
Qed.

Lemma list_products_newest_first_witness :
  ∃ d' docs,
    Some (db_with desk_lamp) = Some d'
    ∧ [serialized desk_lamp] = map serialized docs
    ∧ docs ⊆+ coll d' "product"
    ∧ StronglySorted not_older docs.
Proof.
  apply (list_products_newest_first clock0 (Some (db_with desk_lamp))
           (Some (db_with desk_lamp)) None None [serialized desk_lamp]).
  reflexivity.
Defined.

(** X13. Under a category filter whose parameter is ASCII text, every item
    returned carries the parameter in lower case as its category.  The
    stored side is compared as it is, so a product whose category has a
    letter from A to Z in upper case is returned under no such filter. *)
Theorem list_products_category_exact (clk : Clock) (db db' : option Database)
    (c : string) (q : option string) (items : list Doc) :
  is_ascii c = true →
  list_products clk db (Some c) q = Some (Returns items, db') →
  c ≠ "" → lower c ≠ "all" →
  ∀ x, x ∈ items →
    has_category (lower c) x
    ∧ ∀ s, x !! "category" = Some (VStr s) → lower s = s.
Proof.
  intros Hascii Hlist Hc Hall.
  assert (Hfilter : category_filter (Some c) = Some (lower c)).
  { unfold category_filter.
    destruct (String.eqb_spec (lower c) "all") as [|_]; [done|].
    by destruct c. }
  rewrite list_products_unfold, Hfilter in Hlist.
  destruct (ensure_seed_data clk db) as [d'|]; [|done].
  cbn [ascii_parameter] in Hlist. rewrite Hascii in Hlist. unfold find in Hlist.
  destruct (select _ _) as [found|] eqn:Hfound; [|done]. cbn [mbind option_bind] in Hlist.
  destruct (sort_desc "created_at" found) as [sorted|] eqn:Hsort; [|done].
  cbn [mbind option_bind] in Hlist. injection Hlist as <- <-.
  intros x Hx. apply list_elem_of_fmap in Hx as (doc & -> & Hin).
  rewrite (sort_desc_Permutation _ _ _ Hsort) in Hin.
  apply (select_elem_of _ _ _ Hfound) in Hin as [_ Hm].
  assert (Hcat : has_category (lower c) doc).
  { cbn [category_query app matches_all matches] in Hm.
    apply field_matches_category.
    destruct (field_matches _ _); [done|]. simpl in Hm.
    destruct (matches_all _ doc); simpl in Hm; congruence. }
  apply has_category_serialized in Hcat. split; [done|].
  intros s Hs. destruct Hcat as [Hv|(l & Hv & _)]; rewrite Hv in Hs; [|done].
  injection Hs as <-. apply lower_idemp.
Qed.

Lemma list_products_category_exact_witness :
  has_category (lower "MINIMAL") (serialized desk_lamp)
  ∧ (∀ s, serialized desk_lamp !! "category" = Some (VStr s) → lower s = s).
Proof.
  apply (list_products_category_exact clock0 (Some (db_with desk_lamp))
           (Some (db_with desk_lamp)) "MINIMAL" None [serialized desk_lamp]);
    [reflexivity|reflexivity|discriminate|discriminate|by left].
Defined.

(** The category listing names ["Gaming"], and no category filter finds the
    product: the parameter is put in lower case, the stored category is
    not. *)
Example capitalised_category_unreachable :
  fst <$> list_categories clock0 (Some (db_with capitalised))
  = Some (Returns ["all"; "Gaming"])
  ∧ fst <$> list_products clock0 (Some (db_with capitalised)) (Some "Gaming") None
    = Some (Returns [])
  ∧ fst <$> list_products clock0 (Some (db_with capitalised)) (Some "gaming") None
    = Some (Returns []).
Proof. repeat split. Qed.


(** *** The document of an order *)

Section dump.

Lemma OrderItem_model_dump_inj (a b : OrderItem.model) :
  OrderItem.model_dump a = OrderItem.model_dump b → a = b.
Proof.
  intros Heq.
  pose proof (f_equal (.!! "product_id") Heq) as H1.
  pose proof (f_equal (.!! "title") Heq) as H2.
  pose proof (f_equal (.!! "price") Heq) as H3.
  pose proof (f_equal (.!! "quantity") Heq) as H4.
  unfold OrderItem.model_dump in H1, H2, H3, H4. simplify_map_eq.
  destruct a, b; simpl in *; congruence.
Qed.

Lemma dump_optional_inj (a b : option string) : dump_optional a = dump_optional b → a = b.
Proof. destruct a, b; simpl; congruence. Qed.

Lemma CustomerInfo_model_dump_inj (a b : CustomerInfo.model) :
  CustomerInfo.model_dump a = CustomerInfo.model_dump b → a = b.
Proof.
  intros Heq.
  pose proof (f_equal (.!! "name") Heq) as H1.
  pose proof (f_equal (.!! "email") Heq) as H2.
  pose proof (f_equal (.!! "address") Heq) as H3.
  unfold CustomerInfo.model_dump in H1, H2, H3. simplify_map_eq.
  apply dump_optional_inj in H3.
  destruct a, b; simpl in *; congruence.
Qed.

Lemma dumped_items_inj (l1 l2 : list OrderItem.model) :
  map (λ it, VDict (OrderItem.model_dump it)) l1
  = map (λ it, VDict (OrderItem.model_dump it)) l2 → l1 = l2.
Proof.
  revert l2. induction l1 as [|a l1 IH]; intros [|b l2]; simpl; try done.
  intros Heq.
  pose proof (f_equal (λ l, match l with VDict m :: _ => m | _ => ∅ end) Heq) as Hab.
  pose proof (f_equal tail Heq) as Hl. simpl in Hab, Hl.
  f_equal; [by apply OrderItem_model_dump_inj|by apply IH].
Qed.
End dump.

(** X15. The document that [create_order] hands to the store keeps the
    whole payload: two payloads with the same dump are the same payload,
    item for item, customer and note included. *)
Theorem model_dump_keeps_payload (a b : CreateOrder.model) :
  CreateOrder.model_dump a = CreateOrder.model_dump b → a = b.
Proof.
  intros Heq.
  assert (Hfields : ∀ o,
    CreateOrder.model_dump o !! "items"
    = Some (VList (map (λ it, VDict (OrderItem.model_dump it)) (CreateOrder.items o)))
    ∧ CreateOrder.model_dump o !! "customer"
      = Some (VDict (CustomerInfo.model_dump (CreateOrder.customer o)))
    ∧ CreateOrder.model_dump o !! "note" = Some (dump_optional (CreateOrder.note o))).
  { intros o. unfold CreateOrder.model_dump. by simplify_map_eq. }
  destruct (Hfields a) as (Ha1 & Ha2 & Ha3), (Hfields b) as (Hb1 & Hb2 & Hb3).
  rewrite Heq in Ha1, Ha2, Ha3. rewrite Hb1 in Ha1. rewrite Hb2 in Ha2. rewrite Hb3 in Ha3.
  pose proof (f_equal (λ o, match o with Some (VList l) => l | _ => [] end) Ha1) as H1.
  pose proof (f_equal (λ o, match o with Some (VDict m) => m | _ => ∅ end) Ha2) as H2.
  pose proof (f_equal (λ o, match o with Some v => v | None => VNone end) Ha3) as H3.
  simpl in H1, H2, H3.
  apply dumped_items_inj in H1. apply CustomerInfo_model_dump_inj in H2.
  apply dump_optional_inj in H3.
  destruct a, b; simpl in *; congruence.
Qed.

Lemma model_dump_keeps_payload_witness : gift_order = gift_order.
Proof. apply (model_dump_keeps_payload gift_order gift_order). reflexivity. Defined.

(** *** From the category listing to the product listing *)

Section offered.
Implicit Types (doc : Doc).

Lemma text_values_has_category doc vs c :
  text_values "category" doc = Some vs → c ∈ vs → has_category c doc.
Proof.
  unfold text_values, has_category.
  destruct (doc !! "category") as [v|]; [|by intros [= <-] ?%elem_of_nil].
  destruct v; try done.
  - intros [= <-] Hc. apply list_elem_of_singleton in Hc as ->. by left.
  - intros Hm Hc. right. exists l. split; [done|].
    apply mapM_Some_1 in Hm. apply list_elem_of_lookup in Hc as [i Hi].
    destruct (Forall2_lookup_r _ _ _ _ _ Hm Hi) as (x & Hx & Hxc).
    destruct x; try done. injection Hxc as ->.
    apply list_elem_of_lookup. by exists i.
Qed.
End offered.

(** X16. A category that the category listing offers, other than the
    leading ["all"], finds at least one product when it is given to the
    product listing, provided it is ASCII text without a letter in upper
    case and is not empty, and every stored product has a [created_at]
    date. *)
Theorem offered_category_finds_products (clk : Clock) (d : Database)
    (cats : list string) (db' : option Database) (c : string) :
  Forall (λ doc, dated doc = true) (coll d "product") →
  list_categories clk (Some d) = Some (Returns ("all" :: cats), db') →
  c ∈ cats → is_ascii c = true → lower c = c → c ≠ "" → c ≠ "all" →
  ∃ items x,
    list_products clk db' (Some c) None = Some (Returns items, db')
    ∧ x ∈ items ∧ has_category c x.
Proof.
  intros Hd Hcats Hc Hascii Hlow Hne Hall.
  destruct (ensure_seed_data_some clk d) as [d' Hd'].
  assert (Hl : Forall (λ doc, dated doc = true) (coll d' "product")).
  { eapply ensure_seed_data_Forall; eauto using dated_with_id, seed_docs_dated. }
  rewrite Forall_forall in Hl.
  pose proof (list_categories_db _ _ _ _ Hcats) as ->. rewrite Hd'.
  unfold list_categories in Hcats. rewrite Hd' in Hcats.
  destruct (distinct d' "product" "category") as [found|] eqn:Hdist; [|done].
  cbn [mbind option_bind] in Hcats. injection Hcats as <-.
  rewrite merge_sort_Permutation in Hc.
  apply (distinct_spec _ _ _ _ Hdist) in Hc as (doc & vs & Hdoc & Hvs & Hin).
  pose proof (text_values_has_category doc vs c Hvs Hin) as Hcat.
  assert (Hseed : ensure_seed_data clk (Some d') = Some d').
  { apply ensure_seed_data_nonempty. intros He. rewrite He in Hdoc.
    by apply elem_of_nil in Hdoc. }
  assert (Hfilter : category_filter (Some c) = Some c).
  { unfold category_filter. rewrite Hlow.
    destruct (String.eqb_spec c "all") as [|_]; [done|]. by destruct c. }
  rewrite list_products_unfold, Hseed, Hfilter.
  cbn [ascii_parameter]. rewrite Hascii. unfold find.
  destruct (select_defined [Equals "category" c] (coll d' "product")) as [sel Hsel].
  { apply Forall_forall. intros doc' _. simpl. by eexists. }
  cbn [category_query text_query text_filter app]. rewrite Hsel. cbn [mbind option_bind].
  pose proof (select_elem_of _ _ _ Hsel) as Hmem.
  rewrite sort_desc_sorted.
  - exists (map serialized (merge_sort (newer_first "created_at") sel)), (serialized doc).
    split; [done|]. split; [|by apply has_category_serialized].
    apply list_elem_of_fmap. exists doc. split; [done|].
    rewrite merge_sort_Permutation. apply Hmem. split; [done|].
    simpl. apply field_matches_category in Hcat. by rewrite Hcat.
  - apply Forall_forall. intros doc' Hin'. apply Hmem in Hin' as [Hin' _].
    specialize (Hl doc' Hin'). by apply bool_decide_eq_true in Hl.
Qed.

Lemma offered_category_finds_products_witness :
  ∃ items x,
    list_products clock0 (Some (db_with desk_lamp)) (Some "minimal") None
    = Some (Returns items, Some (db_with desk_lamp))
    ∧ x ∈ items ∧ has_category "minimal" x.
Proof.
  apply (offered_category_finds_products clock0 (db_with desk_lamp) ["minimal"]
           (Some (db_with desk_lamp)) "minimal");
    [by repeat constructor|reflexivity|by constructor|reflexivity|reflexivity
    |discriminate|discriminate].
Defined.
